(** * mcp23017_scanner: matrix keypad scanner over an MCP23017 GPIO expander

    A shallow embedding of [mcp23017_scanner.py] (classes [Event],
    [EventQueue] and [McpMatrixScanner]) and the properties of its
    scan-and-diff cycle and of its two-list event queue.

    Python integers are [Z]; Python lists are [list] in the same order
    (append at the end, pop from the end); Python sets of key numbers are
    [gset Z]. A method is a computation in a state-and-exception monad
    whose state survives a raised exception, as the mutations of a Python
    object survive a raise. *)

From Stdlib Require Import ZArith Lia.
From stdpp Require Import base list gmap sets.

Local Open Scope Z_scope.

(** ** Exceptions and the method monad *)

(** The exceptions the modelled code can meet. *)
Inductive exn : Type :=
| IndexError          (* pop from an empty list *)
| ValueError          (* negative shift count *)
| ZeroDivisionError   (* // or % by zero *)
| OSError.            (* the I2C bus or the pin failed *)

Inductive result (A : Type) : Type :=
| Ok (a : A)
| Raise (e : exn).
Arguments Ok {A} a.
Arguments Raise {A} e.

Definition is_ok {A} (r : result A) : bool :=
  match r with Ok _ => true | Raise _ => false end.

(** [M St A]: a method body running on a mutable state [St]. *)
Definition M (St A : Type) : Type := St -> result A * St.

Definition ret {St A} (a : A) : M St A := fun s => (Ok a, s).

Definition bind {St A B} (m : M St A) (f : A -> M St B) : M St B :=
  fun s => match m s with
           | (Ok a, s') => f a s'
           | (Raise e, s') => (Raise e, s')
           end.

Definition get_state {St} : M St St := fun s => (Ok s, s).
Definition put_state {St} (s : St) : M St unit := fun _ => (Ok tt, s).

(** Run a method of a component (state [T]) on the object that holds it. *)
Definition zoom {St T A} (proj : St -> T) (upd : T -> St -> St)
    (m : M T A) : M St A :=
  fun s => let '(r, t) := m (proj s) in (r, upd t s).

(** The monad structure, so that method bodies read with stdpp's
    [x ← m; k] and [m;; k]. *)
#[global] Instance M_ret {St} : MRet (M St) := fun A a => ret a.
#[global] Instance M_bind {St} : MBind (M St) := fun A B f m => bind m f.

(** A Python [for x in l: body]. *)
Fixpoint for_each {St A} (l : list A) (body : A -> M St unit) : M St unit :=
  match l with
  | [] => ret tt
  | x :: l' => body x;; for_each l' body
  end.

(** The same call [n] times, collecting what each returns. *)
Fixpoint repeatM {St A} (n : nat) (m : M St A) : M St (list A) :=
  match n with
  | O => ret []
  | S n' => a ← m; l ← repeatM n' m; ret (a :: l)
  end.

(** ** Python primitives *)

(** [l.pop()]: the last element; IndexError on an empty list. *)
Definition list_pop {A} (l : list A) : result (A * list A) :=
  match last l with
  | Some x => Ok (x, removelast l)
  | None => Raise IndexError
  end.

(** [a << n] and [a >> n] raise ValueError on a negative count. *)
Definition py_lshift (a n : Z) : result Z :=
  if n <? 0 then Raise ValueError else Ok (Z.shiftl a n).

Definition py_rshift (a n : Z) : result Z :=
  if n <? 0 then Raise ValueError else Ok (Z.shiftr a n).

(** [a // b] and [a % b]: floor division, ZeroDivisionError on [b = 0]. *)
Definition py_floordiv (a b : Z) : result Z :=
  if b =? 0 then Raise ZeroDivisionError else Ok (a / b).

Definition py_mod (a b : Z) : result Z :=
  if b =? 0 then Raise ZeroDivisionError else Ok (a mod b).

Definition lift_result {St A} (r : result A) : M St A := fun s => (r, s).

(** Truthiness of an int, of a list and of an optional object. *)
Definition int_truthy (z : Z) : bool := negb (z =? 0).
Definition list_truthy {A} (l : list A) : bool :=
  match l with [] => false | _ => true end.
Definition len {A} (l : list A) : Z := Z.of_nat (length l).

(** ** The platform: clock, expander ports, interrupt pin, set iteration *)

(** [W] is the state of the world outside the program: the clock, the
    expander behind the I2C bus and the interrupt line. [Pin] is the
    handle [DigitalInOut(irq)]. A port access can raise; reading the
    clock and releasing a pin cannot. *)
Class Platform (W Pin : Type) := {
  ticks_ms : W -> Z * W;
  set_gpioa : Z -> M W unit;
  get_gpiob : M W Z;
  irq_value : Pin -> M W bool;
  irq_deinit : Pin -> W -> W;
}.

(** The order in which [for key in s] visits a set: unspecified, but each
    element exactly once. *)
Class SetOrder := {
  set_iter : gset Z -> list Z;
  set_iter_perm : forall s, set_iter s ≡ₚ elements s;
}.

(** A call of [ticks_ms()]. *)
Definition ticks `{Platform W Pin} : M W Z :=
  fun w => let '(now, w') := ticks_ms w in (Ok now, w').

(** ** class Event *)

Record Event : Type := mkEvent {
  key_number : Z;
  timestamp : Z;
  pressed : bool;
}.

Definition released (e : Event) : bool := negb (pressed e).

(** [timestamp or ticks_ms()]: the clock is read when the argument is
    falsy, that is [None] or [0]. *)
Definition timestamp_or_ticks `{Platform W Pin} (ts : option Z) : M W Z :=
  match ts with
  | Some t => if int_truthy t then ret t else ticks
  | None => ticks
  end.

(** [Event.__init__(self, key, pressed, timestamp=None)] *)
Definition Event_init `{Platform W Pin} (key : Z) (is_pressed : bool)
    (ts : option Z) : M W Event :=
  stamp ← timestamp_or_ticks ts;
  ret {| key_number := key; timestamp := stamp; pressed := is_pressed |}.

(** ** class EventQueue *)

Record EventQueue : Type := mkQueue {
  _outq : list Event;
  _inq : list Event;
}.

Module EventQueue.

Definition __init__ : EventQueue := {| _outq := []; _inq := [] |}.

Definition pop_outq : M EventQueue Event :=
  q ← get_state;
  '(e, rest) ← lift_result (list_pop (_outq q));
  put_state {| _outq := rest; _inq := _inq q |};;
  ret e.

Definition pop_inq : M EventQueue Event :=
  q ← get_state;
  '(e, rest) ← lift_result (list_pop (_inq q));
  put_state {| _outq := _outq q; _inq := rest |};;
  ret e.

Definition append (event : Event) : M EventQueue unit :=
  q ← get_state;
  put_state {| _outq := _outq q; _inq := _inq q ++ [event] |}.

Definition get : M EventQueue (option Event) :=
  q ← get_state;
  if list_truthy (_outq q) then
    e ← pop_outq; ret (Some e)
  else if len (_inq q) =? 1 then
    e ← pop_inq; ret (Some e)
  else if list_truthy (_inq q) then
    put_state {| _outq := rev (_inq q); _inq := _inq q |};;
    (q' ← get_state; put_state {| _outq := _outq q'; _inq := [] |});;
    e ← pop_outq; ret (Some e)
  else ret None.

Definition clear : M EventQueue unit :=
  q ← get_state;
  put_state {| _outq := []; _inq := _inq q |};;
  q' ← get_state;
  put_state {| _outq := _outq q'; _inq := [] |}.

Definition __len__ : M EventQueue Z :=
  q ← get_state; ret (len (_outq q) + len (_inq q)).

Definition __bool__ : M EventQueue bool :=
  n ← __len__; ret (0 <? n).

(** The events still queued, oldest first. *)
Definition contents (q : EventQueue) : list Event := rev (_outq q) ++ _inq q.

End EventQueue.

(** ** class McpMatrixScanner *)

(** The fields of the scanner object. The expander [self.mcp] is a handle
    on the world [W]; what it reads and writes lives there. *)
Record McpMatrixScanner (Pin : Type) : Type := mkScanner {
  _key_count : Z;
  columns : list Z;
  rows : list Z;
  keys_state : gset Z;
  events : EventQueue;
  irq : option Pin;
}.
Arguments mkScanner {Pin}.
Arguments _key_count {Pin}.
Arguments columns {Pin}.
Arguments rows {Pin}.
Arguments keys_state {Pin}.
Arguments events {Pin}.
Arguments irq {Pin}.

(** The scanner object together with the world its methods act on. *)
Record Machine (W Pin : Type) : Type := mkMachine {
  self : McpMatrixScanner Pin;
  world : W;
}.
Arguments mkMachine {W Pin}.
Arguments self {W Pin}.
Arguments world {W Pin}.

(** A loop that updates a local variable [acc] on each element. *)
Fixpoint fold_each {St A B} (l : list A) (acc : B) (body : A -> B -> M St B)
    : M St B :=
  match l with
  | [] => ret acc
  | x :: l' => acc' ← body x acc; fold_each l' acc' body
  end.

Section Scanner.
Context {W Pin : Type} `{!Platform W Pin} `{!SetOrder}.

Local Abbreviation Mach := (Machine W Pin).

Definition on_world {A} (m : M W A) : M Mach A :=
  zoom world (fun w st => {| self := self st; world := w |}) m.

Definition set_events (q : EventQueue) (s : McpMatrixScanner Pin) :=
  {| _key_count := _key_count s; columns := columns s; rows := rows s;
     keys_state := keys_state s; events := q; irq := irq s |}.

Definition set_keys_state (ks : gset Z) (s : McpMatrixScanner Pin) :=
  {| _key_count := _key_count s; columns := columns s; rows := rows s;
     keys_state := ks; events := events s; irq := irq s |}.

Definition set_irq (p : option Pin) (s : McpMatrixScanner Pin) :=
  {| _key_count := _key_count s; columns := columns s; rows := rows s;
     keys_state := keys_state s; events := events s; irq := p |}.

Definition on_self (f : McpMatrixScanner Pin -> McpMatrixScanner Pin)
    : M Mach unit :=
  fun st => (Ok tt, {| self := f (self st); world := world st |}).

Definition on_events {A} (m : M EventQueue A) : M Mach A :=
  zoom (fun st => events (self st))
       (fun q st => {| self := set_events q (self st); world := world st |}) m.

(** [key_count] *)
Definition key_count (s : McpMatrixScanner Pin) : Z := _key_count s.

(** The test [self.irq is None or not self.irq.value]. *)
Definition irq_gate : M Mach bool :=
  st ← get_state;
  match irq (self st) with
  | None => ret true
  | Some pin => v ← on_world (irq_value pin); ret (negb v)
  end.

(** The body of [for row in self.rows]. *)
Definition scan_row (num_cols scan_column inputs row : Z) (pressed : gset Z)
    : M Mach (gset Z) :=
  shifted ← lift_result (py_rshift inputs row);
  if Z.land shifted 1 =? 0
  then ret ({[ scan_column + num_cols * row ]} ∪ pressed)
  else ret pressed.

(** The body of [for scan_column in self.columns]. *)
Definition scan_column_body (num_cols scan_column : Z) (pressed : gset Z)
    : M Mach (gset Z) :=
  mask ← lift_result (py_lshift 1 scan_column);
  on_world (set_gpioa (0xFF - mask));;
  gate ← irq_gate;
  if gate : bool then
    inputs ← on_world get_gpiob;
    if int_truthy inputs then
      st ← get_state;
      fold_each (rows (self st)) pressed (scan_row num_cols scan_column inputs)
    else ret pressed
  else ret pressed.

Definition _scan_matrix : M Mach (gset Z) :=
  st ← get_state;
  let num_cols := len (columns (self st)) in
  pressed ← fold_each (columns (self st)) ∅ (scan_column_body num_cols);
  on_world (set_gpioa 0xFF);;
  ret pressed.

(** [self.events.append(Event(key, is_pressed, timestamp))] *)
Definition emit (is_pressed : bool) (stamp key : Z) : M Mach unit :=
  e ← on_world (Event_init key is_pressed (Some stamp));
  on_events (EventQueue.append e).

Definition update_queue : M Mach unit :=
  stamp ← on_world ticks;
  current_state ← _scan_matrix;
  st ← get_state;
  let released_keys := keys_state (self st) ∖ current_state in
  let pressed_keys := current_state ∖ keys_state (self st) in
  for_each (set_iter released_keys) (emit false stamp);;
  for_each (set_iter pressed_keys) (emit true stamp);;
  on_self (set_keys_state current_state).

Definition key_number_to_row_column (s : McpMatrixScanner Pin)
    (key_number : Z) : result (Z * Z) :=
  match py_floordiv key_number (len (columns s)) with
  | Raise e => Raise e
  | Ok row =>
      match py_mod key_number (len (columns s)) with
      | Raise e => Raise e
      | Ok column => Ok (row, column)
      end
  end.

Definition row_column_to_key_number (s : McpMatrixScanner Pin)
    (row column : Z) : Z :=
  row * len (columns s) + column.

Definition reset : M Mach unit :=
  on_events EventQueue.clear;;
  on_self (set_keys_state ∅).

Definition deinit : M Mach unit :=
  st ← get_state;
  match irq (self st) with
  | Some pin =>
      on_world (fun w => (Ok tt, irq_deinit pin w));;
      on_self (set_irq None)
  | None => ret tt
  end.

(** *** Vocabulary of the properties *)

(** A method body that assigns no field of [self]. *)
Definition keeps_self {A} (m : M Mach A) : Prop :=
  forall st, self (snd (m st)) = self st.

(** The scanner [s] after [evs] were appended to its queue. *)
Definition with_appended (evs : list Event) (s : McpMatrixScanner Pin) :=
  set_events {| _outq := _outq (events s); _inq := _inq (events s) ++ evs |} s.

End Scanner.

(** ** A test bench

    A platform whose clock, row port and interrupt line follow scripts: it
    runs the methods on concrete readings. An exhausted script reads the
    idle value (clock 0, all rows high, line deasserted). *)

Module Bench.

Record World : Type := mkWorld {
  clock : list Z;
  gpioa : Z;
  gpiob : list (result Z);
  irq_line : list bool;
  pin_released : bool;
}.

Definition bench_ticks_ms (w : World) : Z * World :=
  match clock w with
  | [] => (0, w)
  | t :: later =>
      (t, {| clock := later; gpioa := gpioa w; gpiob := gpiob w;
             irq_line := irq_line w; pin_released := pin_released w |})
  end.

Definition bench_set_gpioa (v : Z) : M World unit :=
  fun w => (Ok tt, {| clock := clock w; gpioa := v; gpiob := gpiob w;
                      irq_line := irq_line w;
                      pin_released := pin_released w |}).

Definition bench_get_gpiob : M World Z :=
  fun w => match gpiob w with
           | [] => (Ok 0xFF, w)
           | r :: later =>
               (r, {| clock := clock w; gpioa := gpioa w; gpiob := later;
                      irq_line := irq_line w;
                      pin_released := pin_released w |})
           end.

Definition bench_irq_value (_ : unit) : M World bool :=
  fun w => match irq_line w with
           | [] => (Ok true, w)
           | v :: later =>
               (Ok v, {| clock := clock w; gpioa := gpioa w;
                         gpiob := gpiob w; irq_line := later;
                         pin_released := pin_released w |})
           end.

Definition bench_irq_deinit (_ : unit) (w : World) : World :=
  {| clock := clock w; gpioa := gpioa w; gpiob := gpiob w;
     irq_line := irq_line w; pin_released := true |}.

#[global] Instance platform : Platform World unit := {|
  ticks_ms := bench_ticks_ms;
  set_gpioa := bench_set_gpioa;
  get_gpiob := bench_get_gpiob;
  irq_value := bench_irq_value;
  irq_deinit := bench_irq_deinit;
|}.

(** Sets are visited in the order of [elements]. *)
#[global] Instance set_order : SetOrder := {|
  set_iter := elements;
  set_iter_perm := fun s => reflexivity (elements s);
|}.

Definition world0 (ticks : list Z) (reads : list (result Z)) : World :=
  {| clock := ticks; gpioa := 0xFF; gpiob := reads; irq_line := [];
     pin_released := false |}.

(** A scanner on the given pins, with the keys [down] held at its last scan
    and an empty queue. *)
Definition scanner (row_pins column_pins : list Z) (down : gset Z)
    (pin : option unit) : McpMatrixScanner unit :=
  {| _key_count := len column_pins * len row_pins;
     columns := column_pins; rows := row_pins; keys_state := down;
     events := EventQueue.__init__; irq := pin |}.

(** Two rows, three columns, key 4 held at the last scan. In the next
    scan column 0 reads row 0 low (key 0) and the other columns read
    idle; the clock reads 5. *)
Definition cycle : Machine World unit :=
  {| self := scanner [0; 1] [0; 1; 2] {[ 4 ]} None;
     world := world0 [5] [Ok 0xFE; Ok 0xFF; Ok 0xFF] |}.

(** The same keypad; the bus fails on the first read of the row port. *)
Definition bus_fault : Machine World unit :=
  {| self := scanner [0; 1] [0; 1; 2] {[ 4 ]} None;
     world := world0 [5] [Raise OSError] |}.

(** One column and one row; the row port reads 0. *)
Definition zero_read : Machine World unit :=
  {| self := scanner [0] [0] ∅ None;
     world := world0 [5] [Ok 0] |}.

(** One column and one row, key 0 down; the clock reads 0 when the cycle
    starts and 7 afterwards. *)
Definition midnight : Machine World unit :=
  {| self := scanner [0] [0] ∅ None;
     world := world0 [0; 7] [Ok 0xFE] |}.

(** The same with an interrupt pin held. *)
Definition with_pin : Machine World unit :=
  {| self := scanner [0] [0] ∅ (Some tt);
     world := world0 [5] [Ok 0xFE] |}.

End Bench.

(** ** The rest of the module

    The methods below complete the three classes: equality and hash of
    events, [get_into] and the constructor of the scanner. *)

(** [Event.__eq__]: the timestamps are not compared. *)
Definition Event_eq (e other : Event) : bool :=
  (key_number e =? key_number other) && Bool.eqb (pressed e) (pressed other).

(** [Event.__hash__]: [self.key_number << 1 + int(self.pressed)]; in
    Python [+] binds tighter than [<<], so the shift count is
    [1 + int(self.pressed)]. *)
Definition Event_hash (e : Event) : result Z :=
  py_lshift (key_number e) (1 + Z.b2z (pressed e)).

(** [EventQueue.get_into(event)]: the state is the queue and the event
    object the caller supplies. An [Event] object is always truthy (the
    class has no [__bool__] and no [__len__]), so [if ev:] tests for
    [None]. *)
Definition get_into : M (EventQueue * Event) bool :=
  ev ← zoom fst (fun q st => (q, snd st)) EventQueue.get;
  match ev with
  | Some ev =>
      (st ← get_state;
       put_state (fst st, {| key_number := key_number ev;
                             timestamp := timestamp (snd st);
                             pressed := pressed (snd st) |}));;
      (st ← get_state;
       put_state (fst st, {| key_number := key_number (snd st);
                             timestamp := timestamp ev;
                             pressed := pressed (snd st) |}));;
      (st ← get_state;
       put_state (fst st, {| key_number := key_number (snd st);
                             timestamp := timestamp (snd st);
                             pressed := pressed ev |}));;
      ret true
  | None => ret false
  end.

(** Calls on a queue and what they return, to run any sequence of them. *)
Inductive queue_call : Type :=
| CallAppend (e : Event)
| CallGet
| CallClear
| CallLen
| CallBool.

Inductive queue_reply : Type :=
| ReplyUnit
| ReplyEvent (e : option Event)
| ReplyInt (n : Z)
| ReplyBool (b : bool).

Definition run_call (c : queue_call) : M EventQueue queue_reply :=
  match c with
  | CallAppend e => EventQueue.append e;; ret ReplyUnit
  | CallGet => e ← EventQueue.get; ret (ReplyEvent e)
  | CallClear => EventQueue.clear;; ret ReplyUnit
  | CallLen => n ← EventQueue.__len__; ret (ReplyInt n)
  | CallBool => b ← EventQueue.__bool__; ret (ReplyBool b)
  end.

Fixpoint run_calls (cs : list queue_call) : M EventQueue (list queue_reply) :=
  match cs with
  | [] => ret []
  | c :: cs' => r ← run_call c; rs ← run_calls cs'; ret (r :: rs)
  end.

(** The same calls on a plain first-in first-out list, oldest first. *)
Definition fifo_call (c : queue_call) (l : list Event)
    : queue_reply * list Event :=
  match c with
  | CallAppend e => (ReplyUnit, l ++ [e])
  | CallGet => (ReplyEvent (head l), tail l)
  | CallClear => (ReplyUnit, [])
  | CallLen => (ReplyInt (len l), l)
  | CallBool => (ReplyBool (list_truthy l), l)
  end.

Fixpoint fifo_calls (cs : list queue_call) (l : list Event)
    : list queue_reply :=
  match cs with
  | [] => []
  | c :: cs' => fst (fifo_call c l) :: fifo_calls cs' (snd (fifo_call c l))
  end.

(** The registers of the expander that [__init__] writes. *)
Inductive register : Type :=
| IODIRA | IODIRB | GPPUB
| INTERRUPT_ENABLE | DEFAULT_VALUE | INTERRUPT_CONFIGURATION | IO_CONTROL.

(** What [__init__] needs from the platform besides the ports: register
    writes, [mcp.clear_ints()], [DigitalInOut(irq)] on a board pin
    [PinId] and [switch_to_input(Pull.UP)]. Each can raise. *)
Class Setup (W Pin PinId : Type) := {
  write_register : register -> Z -> M W unit;
  clear_ints : M W unit;
  DigitalInOut : PinId -> M W Pin;
  switch_to_input_pull_up : Pin -> M W unit;
}.

Section Construction.
Context {W Pin PinId : Type} `{!Platform W Pin} `{!Setup W Pin PinId}.

(** [McpMatrixScanner.__init__(self, mcp, row_pins, column_pins, irq)].
    The state is the object under construction and the world; a board pin
    object is truthy, so [if irq:] tests for [None]. *)
Definition McpMatrixScanner_init (row_pins column_pins : list Z)
    (irq_pin : option PinId) : M (Machine W Pin) unit :=
  on_self (fun _ =>
    {| _key_count := len column_pins * len row_pins;
       columns := column_pins; rows := row_pins; keys_state := ∅;
       events := EventQueue.__init__; irq := None |});;
  on_world (write_register IODIRA 0x00);;
  on_world (write_register IODIRB 0xFF);;
  on_world (write_register GPPUB 0xFF);;
  on_self (set_irq None);;
  match irq_pin with
  | Some id =>
      pin ← on_world (DigitalInOut id);
      on_self (set_irq (Some pin));;
      on_world (switch_to_input_pull_up pin);;
      on_world (write_register INTERRUPT_ENABLE 0xFF00);;
      on_world (write_register DEFAULT_VALUE 0xFFFF);;
      on_world (write_register INTERRUPT_CONFIGURATION 0xFF00);;
      on_world (write_register IO_CONTROL 0x44);;
      on_world clear_ints
  | None => ret tt
  end.

End Construction.

(** The bench accepts the configuration of [__init__] and does not
    record it. *)
Module BenchSetup.

#[global] Instance setup : Setup Bench.World unit Z := {|
  write_register := fun _ _ w => (Ok tt, w);
  clear_ints := fun w => (Ok tt, w);
  DigitalInOut := fun _ w => (Ok tt, w);
  switch_to_input_pull_up := fun _ w => (Ok tt, w);
|}.

(** The object before [__init__] has run, on a bench where key 4 (column
    1, row 1) is down. *)
Definition blank : Machine Bench.World unit :=
  {| self := Bench.scanner [] [] ∅ None;
     world := Bench.world0 [5] [Ok 0xFF; Ok 0xFD; Ok 0xFF] |}.

(** The interrupt line has no reading scripted: it reads deasserted. *)
Definition line_idle (w : Bench.World) : Prop := Bench.irq_line w = [].

(** Two rows, three columns and an interrupt pin, key 4 held at the last
    scan; the line reads deasserted and the row port would read key 0
    down. *)
Definition held_idle : Machine Bench.World unit :=
  {| self := Bench.scanner [0; 1] [0; 1; 2] {[ 4 ]} (Some tt);
     world := Bench.world0 [5] [Ok 0xFE] |}.

(** A column pin that is negative. *)
Definition bad_column : Machine Bench.World unit :=
  {| self := Bench.scanner [0] [-1] ∅ None;
     world := Bench.world0 [5] [Ok 0xFE] |}.

(** The bench with a column port that refuses the idle value: the write
    of [0xFF] raises, every other write is accepted. *)
Definition idle_write_fails : Platform Bench.World unit := {|
  ticks_ms := Bench.bench_ticks_ms;
  set_gpioa := fun v w =>
    if v =? 0xFF then (Raise OSError, w) else Bench.bench_set_gpioa v w;
  get_gpiob := Bench.bench_get_gpiob;
  irq_value := Bench.bench_irq_value;
  irq_deinit := Bench.bench_irq_deinit;
|}.

End BenchSetup.

Section Vocabulary.
Context {W Pin : Type} `{!Platform W Pin} `{!SetOrder}.

(** How many events of [evs] are the transition [p] of key [K]. *)
Definition count_events (K : Z) (p : bool) (evs : list Event) : nat :=
  length (filter (fun e => key_number e = K /\ pressed e = p) evs).

(** Every key has as many pressed events queued as released ones, and one
    more when it is in [keys_state]. *)
Definition balanced (s : McpMatrixScanner Pin) : Prop :=
  forall K,
    count_events K true (EventQueue.contents (events s))
    = (count_events K false (EventQueue.contents (events s))
       + if decide (K ∈ keys_state s) then 1 else 0)%nat.

(** [port_fault st e st']: in the scan that starts in [st], an access to a
    port of the expander raises [e], and [st'] is the state at that
    moment. The access is the write of the column port that selects a
    column, the read of the row port for a column, or the write that
    sets the column port back to [0xFF] after the last column. *)
Inductive port_fault (st : Machine W Pin) (e : exn) : Machine W Pin -> Prop :=
| fault_select_write (pre post : list Z) (c mask : Z) (acc : gset Z)
    (st1 : Machine W Pin) (w2 : W) :
    columns (self st) = pre ++ c :: post ->
    fold_each pre ∅ (scan_column_body (len (columns (self st)))) st
    = (Ok acc, st1) ->
    py_lshift 1 c = Ok mask ->
    set_gpioa (0xFF - mask) (world st1) = (Raise e, w2) ->
    port_fault st e {| self := self st1; world := w2 |}
| fault_row_read (pre post : list Z) (c mask : Z) (acc : gset Z)
    (st1 st3 : Machine W Pin) (w2 w4 : W) :
    columns (self st) = pre ++ c :: post ->
    fold_each pre ∅ (scan_column_body (len (columns (self st)))) st
    = (Ok acc, st1) ->
    py_lshift 1 c = Ok mask ->
    set_gpioa (0xFF - mask) (world st1) = (Ok tt, w2) ->
    irq_gate {| self := self st1; world := w2 |} = (Ok true, st3) ->
    get_gpiob (world st3) = (Raise e, w4) ->
    port_fault st e {| self := self st3; world := w4 |}
| fault_restore_write (pressed : gset Z) (st1 : Machine W Pin) (w2 : W) :
    fold_each (columns (self st)) ∅
      (scan_column_body (len (columns (self st)))) st
    = (Ok pressed, st1) ->
    set_gpioa 0xFF (world st1) = (Raise e, w2) ->
    port_fault st e {| self := self st1; world := w2 |}.

(** [n] calls of [update_queue] in a row; a call that raises is caught and
    the next one runs on the state it left. *)
Definition cycles (n : nat) (st : Machine W Pin) : Machine W Pin :=
  Nat.iter n (fun st => snd (update_queue st)) st.

End Vocabulary.

(** * Properties *)

(** ** The event queue *)

Module QueueFacts.
Import EventQueue.

Lemma list_pop_snoc {A} (l : list A) (x : A) :
  list_pop (l ++ [x]) = Ok (x, l).
Proof. unfold list_pop. by rewrite last_snoc, removelast_last. Qed.

Lemma list_truthy_snoc {A} (l : list A) (x : A) :
  list_truthy (l ++ [x]) = true.
Proof. by destruct l. Qed.

Lemma append_run (e : Event) (q : EventQueue) :
  append e q = (Ok tt, {| _outq := _outq q; _inq := _inq q ++ [e] |}).
Proof. reflexivity. Qed.

Lemma clear_run (q : EventQueue) : clear q = (Ok tt, __init__).
Proof. reflexivity. Qed.

Lemma length_run (q : EventQueue) :
  __len__ q = (Ok (len (_outq q) + len (_inq q)), q).
Proof. reflexivity. Qed.

Lemma length_contents (q : EventQueue) :
  fst (__len__ q) = Ok (len (contents q)).
Proof.
  rewrite length_run. cbn. unfold contents, len.
  rewrite length_app, length_rev. f_equal. lia.
Qed.

Lemma pop_outq_run (l i : list Event) (x : Event) :
  pop_outq {| _outq := l ++ [x]; _inq := i |}
  = (Ok x, {| _outq := l; _inq := i |}).
Proof.
  unfold pop_outq, mbind, M_bind, bind, get_state, lift_result.
  cbn [_outq _inq]. by rewrite list_pop_snoc.
Qed.

Lemma pop_inq_run (o l : list Event) (x : Event) :
  pop_inq {| _outq := o; _inq := l ++ [x] |}
  = (Ok x, {| _outq := o; _inq := l |}).
Proof.
  unfold pop_inq, mbind, M_bind, bind, get_state, lift_result.
  cbn [_outq _inq]. by rewrite list_pop_snoc.
Qed.

(** [get] never raises: it returns the oldest queued event, if any, and
    leaves the others queued in their order. *)
Lemma get_run (q : EventQueue) :
  exists q', get q = (Ok (head (contents q)), q')
             /\ contents q' = tail (contents q).
Proof.
  destruct q as [outq inq]. unfold contents. cbn [_outq _inq].
  destruct outq as [|o outq _] using rev_ind.
  - destruct inq as [|e1 [|e2 inq]].
    + by exists __init__.
    + exists __init__. split; [|done].
      unfold get, mbind, M_bind, bind at 1, get_state. cbn [_outq _inq].
      cbn [list_truthy]. change (len [e1] =? 1) with true. unfold bind.
      cbn beta iota. change [e1] with ([] ++ [e1]) at 1.
      by rewrite pop_inq_run.
    + exists {| _outq := rev (e2 :: inq); _inq := [] |}. split.
      * unfold get, mbind, M_bind, bind at 1, get_state. cbn [_outq _inq].
        cbn [list_truthy].
        replace (len (e1 :: e2 :: inq) =? 1) with false
          by (symmetry; apply Z.eqb_neq; unfold len; cbn [length]; lia).
        unfold bind, put_state. cbn [_outq _inq].
        change (rev (e1 :: e2 :: inq)) with (rev (e2 :: inq) ++ [e1]).
        by rewrite pop_outq_run.
      * cbn [_outq _inq]. by rewrite rev_involutive, app_nil_r.
  - exists {| _outq := outq; _inq := inq |}. split.
    + unfold get, mbind, M_bind, bind at 1, get_state. cbn [_outq _inq].
      rewrite list_truthy_snoc. unfold bind. by rewrite pop_outq_run, rev_unit.
    + cbn [_outq _inq]. by rewrite rev_unit.
Qed.

(** Draining a queue: [n] calls of [get] on a queue holding exactly [n]
    events, and one more. *)
Lemma drain_run (l : list Event) :
  forall q, contents q = l ->
    fst (repeatM (S (length l)) get q) = Ok (map Some l ++ [None]).
Proof.
  induction l as [|e l IH]; intros q Hq.
  - destruct (get_run q) as (q' & Hg & _). rewrite Hq in Hg.
    cbn [repeatM]. unfold mbind, M_bind, bind. rewrite Hg. done.
  - destruct (get_run q) as (q' & Hg & Hq'). rewrite Hq in Hg, Hq'.
    specialize (IH q' Hq').
    change (repeatM (S (length (e :: l))) get)
      with (a ← get; r ← repeatM (S (length l)) get; ret (a :: r)).
    unfold mbind, M_bind, bind at 1. rewrite Hg.
    unfold bind at 1.
    destruct (repeatM (S (length l)) get q') as [[r|x] q''];
      cbn in IH; [|discriminate].
    injection IH as ->. done.
Qed.

Lemma appends_run (l : list Event) (q : EventQueue) :
  for_each l append q
  = (Ok tt, {| _outq := _outq q; _inq := _inq q ++ l |}).
Proof.
  revert q. induction l as [|e l IH]; intros q.
  - cbn. rewrite app_nil_r. by destruct q.
  - cbn [for_each]. unfold mbind, M_bind, bind. rewrite append_run, IH.
    cbn [_outq _inq]. by rewrite <- app_assoc.
Qed.

End QueueFacts.

(** C3. Whatever events are appended to a new [EventQueue], in whatever
    number [n], with no [get] in between, the next [n] calls of [get]
    return them in the order of their appends and the call after those
    returns [None]. *)
Theorem queue_fifo (l : list Event) :
  fst (repeatM (S (length l)) EventQueue.get
         (snd (for_each l EventQueue.append EventQueue.__init__)))
  = Ok (map Some l ++ [None]).
Proof.
  apply QueueFacts.drain_run.
  rewrite QueueFacts.appends_run. reflexivity.
Qed.

(** C8. From every state of the queue, [clear] returns without raising
    and leaves a queue whose length is 0 and whose [get] returns [None];
    [get] and [__len__] do not raise from any state either. *)
Theorem queue_clear_empties (q : EventQueue) :
  (exists q', EventQueue.clear q = (Ok tt, q')
              /\ fst (EventQueue.__len__ q') = Ok 0
              /\ fst (EventQueue.get q') = Ok None)
  /\ is_ok (fst (EventQueue.get q)) = true
  /\ is_ok (fst (EventQueue.__len__ q)) = true
  /\ is_ok (fst (EventQueue.clear q)) = true.
Proof.
  split; [|split; [|split]].
  - exists EventQueue.__init__. by rewrite QueueFacts.clear_run.
  - destruct (QueueFacts.get_run q) as (q' & -> & _). reflexivity.
  - reflexivity.
  - reflexivity.
Qed.

(** ** Running method bodies *)

Lemma bind_ok {St A B} (m : M St A) (f : A -> M St B) s a s' :
  m s = (Ok a, s') -> (m ≫= f) s = f a s'.
Proof. intros E. unfold mbind, M_bind, bind. by rewrite E. Qed.

Lemma bind_raise {St A B} (m : M St A) (f : A -> M St B) s e s' :
  m s = (Raise e, s') -> (m ≫= f) s = (Raise e, s').
Proof. intros E. unfold mbind, M_bind, bind. by rewrite E. Qed.

Lemma bind_inv_ok {St A B} (m : M St A) (f : A -> M St B) s b s2 :
  (m ≫= f) s = (Ok b, s2) ->
  exists a s1, m s = (Ok a, s1) /\ f a s1 = (Ok b, s2).
Proof.
  unfold mbind, M_bind, bind. destruct (m s) as [[a|e] s1]; intros E.
  - by exists a, s1.
  - discriminate.
Qed.

Lemma fold_each_app {St A B} (l1 l2 : list A) (acc : B)
    (body : A -> B -> M St B) (s : St) :
  fold_each (l1 ++ l2) acc body s
  = (fold_each l1 acc body ≫= fun acc1 => fold_each l2 acc1 body) s.
Proof.
  revert acc s. induction l1 as [|x l1 IH]; intros acc s; [done|].
  cbn [app fold_each]. unfold mbind, M_bind, bind.
  destruct (body x acc s) as [[acc'|e] s1]; [|done].
  rewrite IH. reflexivity.
Qed.

(** ** The row test *)

Lemma row_bit_low (inputs row : Z) :
  0 <= row ->
  (Z.land (Z.shiftr inputs row) 1 =? 0) = negb (Z.testbit inputs row).
Proof.
  intros Hrow.
  change 1 with (Z.ones 1). rewrite Z.land_ones by lia.
  change (2 ^ 1) with 2. rewrite <- Z.bit0_mod.
  rewrite Z.shiftr_spec by lia. rewrite Z.add_0_l.
  by destruct (Z.testbit inputs row).
Qed.

Section ScannerFacts.
Context {W Pin : Type} `{!Platform W Pin} `{!SetOrder}.

Local Abbreviation Mach := (Machine W Pin).
Local Abbreviation unchanged_self := (keeps_self (W := W) (Pin := Pin)).

Lemma keeps_self_ret {A} (a : A) : unchanged_self (ret a).
Proof. by intros st. Qed.

Lemma keeps_self_get_state : unchanged_self get_state.
Proof. by intros st. Qed.

Lemma keeps_self_lift_result {A} (r : result A) :
  unchanged_self (lift_result r).
Proof. by intros st. Qed.

Lemma keeps_self_on_world {A} (m : M W A) :
  unchanged_self (on_world m).
Proof.
  intros st. unfold on_world, zoom. by destruct (m (world st)).
Qed.

Lemma keeps_self_bind {A B} (m : M Mach A) (f : A -> M Mach B) :
  unchanged_self m -> (forall a, unchanged_self (f a)) ->
  unchanged_self (m ≫= f).
Proof.
  intros Hm Hf st. unfold mbind, M_bind, bind.
  specialize (Hm st). destruct (m st) as [[a|e] st1]; cbn in Hm.
  - by rewrite Hf.
  - done.
Qed.

Lemma keeps_self_fold_each {A B} (l : list A) (acc : B)
    (body : A -> B -> M Mach B) :
  (forall x b, unchanged_self (body x b)) ->
  unchanged_self (fold_each l acc body).
Proof.
  intros Hbody. revert acc.
  induction l as [|x l IH]; intros acc; cbn [fold_each].
  - apply keeps_self_ret.
  - apply keeps_self_bind; [apply Hbody | intros b; apply IH].
Qed.

Lemma keeps_self_irq_gate : unchanged_self irq_gate.
Proof.
  apply keeps_self_bind; [apply keeps_self_get_state|]. intros st.
  destruct (irq (self st)); [|apply keeps_self_ret].
  apply keeps_self_bind; [apply keeps_self_on_world|].
  intros v. apply keeps_self_ret.
Qed.

Lemma keeps_self_scan_row n c inputs row pressed :
  unchanged_self (scan_row n c inputs row pressed).
Proof.
  apply keeps_self_bind; [apply keeps_self_lift_result|]. intros shifted.
  destruct (_ =? _); apply keeps_self_ret.
Qed.

Lemma keeps_self_scan_column_body n c pressed :
  unchanged_self (scan_column_body n c pressed).
Proof.
  apply keeps_self_bind; [apply keeps_self_lift_result|]. intros mask.
  apply keeps_self_bind; [apply keeps_self_on_world|]. intros _.
  apply keeps_self_bind; [apply keeps_self_irq_gate|]. intros [|].
  - apply keeps_self_bind; [apply keeps_self_on_world|]. intros inputs.
    destruct (int_truthy inputs); [|apply keeps_self_ret].
    apply keeps_self_bind; [apply keeps_self_get_state|]. intros st.
    apply keeps_self_fold_each. intros. apply keeps_self_scan_row.
  - apply keeps_self_ret.
Qed.

Lemma keeps_self_scan_matrix : unchanged_self _scan_matrix.
Proof.
  apply keeps_self_bind; [apply keeps_self_get_state|]. intros st.
  apply keeps_self_bind.
  - apply keeps_self_fold_each. intros.
    apply keeps_self_scan_column_body.
  - intros pressed.
    apply keeps_self_bind; [apply keeps_self_on_world|]. intros _.
    apply keeps_self_ret.
Qed.

Lemma self_after_ticks (st : Mach) : self (snd (on_world ticks st)) = self st.
Proof. apply keeps_self_on_world. Qed.

End ScannerFacts.

Section CycleFacts.
Context {W Pin : Type} `{!Platform W Pin} `{!SetOrder}.

Local Abbreviation Mach := (Machine W Pin).

Lemma with_appended_nil (s : McpMatrixScanner Pin) : with_appended [] s = s.
Proof.
  unfold with_appended, set_events. rewrite app_nil_r.
  by destruct s as [? ? ? ? [? ?] ?].
Qed.

Lemma with_appended_app evs1 evs2 (s : McpMatrixScanner Pin) :
  with_appended evs2 (with_appended evs1 s) = with_appended (evs1 ++ evs2) s.
Proof.
  unfold with_appended, set_events. cbn. by rewrite app_assoc.
Qed.

(** The argument of [Event] is kept when it is not 0; the clock is read
    again when it is 0. *)
Lemma timestamp_or_ticks_run (t : Z) (w : W) :
  timestamp_or_ticks (Some t) w
  = if int_truthy t then (Ok t, w)
    else (Ok (fst (ticks_ms w)), snd (ticks_ms w)).
Proof.
  unfold timestamp_or_ticks, ticks. destruct (int_truthy t); [done|].
  by destruct (ticks_ms w).
Qed.

Lemma Event_init_run (key : Z) (p : bool) (ts : option Z) (w : W) :
  exists stamp w',
    Event_init key p ts w
    = (Ok {| key_number := key; timestamp := stamp; pressed := p |}, w')
    /\ (forall t, ts = Some t -> t <> 0 -> stamp = t /\ w' = w).
Proof.
  unfold Event_init, mbind, M_bind, bind, timestamp_or_ticks, ticks.
  destruct ts as [t|].
  - unfold int_truthy. destruct (Z.eqb_spec t 0) as [->|Hne]; cbn [negb].
    + destruct (ticks_ms w) as [now w']. exists now, w'.
      split; [done|]. intros t [= <-] Hn. done.
    + exists t, w. split; [done|]. by intros t' [= <-] _.
  - destruct (ticks_ms w) as [now w']. exists now, w'. by split.
Qed.

Lemma emit_run (p : bool) (stamp key : Z) (st : Mach) :
  exists e w',
    emit p stamp key st
    = (Ok tt, {| self := with_appended [e] (self st); world := w' |})
    /\ key_number e = key /\ pressed e = p
    /\ (stamp <> 0 -> timestamp e = stamp /\ w' = world st).
Proof.
  destruct (Event_init_run key p (Some stamp) (world st))
    as (t & w' & HE & Hstamp).
  eexists _, w'. split; [|split; [|split]].
  - unfold emit. erewrite bind_ok; cycle 1.
    { unfold on_world, zoom. rewrite HE. reflexivity. }
    reflexivity.
  - done.
  - done.
  - intros Hne. by apply (Hstamp stamp).
Qed.

Lemma for_each_emit_run (p : bool) (stamp : Z) (keys : list Z) :
  forall st : Mach, exists evs w',
    for_each keys (emit p stamp) st
    = (Ok tt, {| self := with_appended evs (self st); world := w' |})
    /\ map key_number evs = keys
    /\ Forall (fun e => pressed e = p) evs
    /\ (stamp <> 0 ->
        Forall (fun e => timestamp e = stamp) evs /\ w' = world st).
Proof.
  induction keys as [|key keys IH]; intros st.
  - exists [], (world st). rewrite with_appended_nil.
    split; [by destruct st|]. by repeat split.
  - destruct (emit_run p stamp key st) as (e & w1 & He & Hk & Hp & Hs).
    destruct (IH {| self := with_appended [e] (self st); world := w1 |})
      as (evs & w2 & Hrest & Hks & Hps & Hss).
    exists (e :: evs), w2. split; [|split; [|split]].
    + cbn [for_each]. erewrite bind_ok by exact He.
      rewrite Hrest. cbn [self]. by rewrite with_appended_app.
    + cbn. by rewrite Hk, Hks.
    + by constructor.
    + intros Hne. destruct (Hs Hne) as [Ht ->].
      destruct (Hss Hne) as [Hts ->]. split; [by constructor|done].
Qed.

Lemma on_world_ticks_run (st : Mach) :
  on_world ticks st
  = (Ok (fst (ticks_ms (world st))), snd (on_world ticks st)).
Proof. unfold on_world, zoom, ticks. by destruct (ticks_ms (world st)). Qed.

(** One cycle whose scan succeeds: the released keys are emitted, then
    the pressed keys, and the scan becomes the new [keys_state]. *)
Lemma update_queue_run (st st2 : Mach) (current : gset Z) :
  _scan_matrix (snd (on_world ticks st)) = (Ok current, st2) ->
  exists rel prs w',
    update_queue st
    = (Ok tt, {| self := set_keys_state current
                           (with_appended (rel ++ prs) (self st));
                 world := w' |})
    /\ map key_number rel = set_iter (keys_state (self st) ∖ current)
    /\ map key_number prs = set_iter (current ∖ keys_state (self st))
    /\ Forall (fun e => pressed e = false) rel
    /\ Forall (fun e => pressed e = true) prs
    /\ (fst (ticks_ms (world st)) <> 0 ->
        Forall (fun e => timestamp e = fst (ticks_ms (world st)))
               (rel ++ prs)).
Proof.
  intros Hscan.
  assert (Hself2 : self st2 = self st).
  { pose proof (keeps_self_scan_matrix (snd (on_world ticks st))) as K.
    rewrite Hscan, self_after_ticks in K. exact K. }
  pose proof (on_world_ticks_run st) as Hticks.
  set (stamp := fst (ticks_ms (world st))) in *.
  destruct (for_each_emit_run false stamp
              (set_iter (keys_state (self st2) ∖ current)) st2)
    as (rel & w3 & Hrel & Hrk & Hrp & Hrs).
  destruct (for_each_emit_run true stamp
              (set_iter (current ∖ keys_state (self st2)))
              {| self := with_appended rel (self st2); world := w3 |})
    as (prs & w4 & Hprs & Hpk & Hpp & Hps).
  exists rel, prs, w4. split; [|split; [|split; [|split; [|split]]]].
  - unfold update_queue.
    erewrite bind_ok by exact Hticks.
    erewrite bind_ok by exact Hscan.
    erewrite bind_ok by reflexivity.
    erewrite bind_ok by exact Hrel.
    erewrite bind_ok by exact Hprs.
    unfold on_self. cbn [self world].
    by rewrite with_appended_app, Hself2.
  - by rewrite Hrk, Hself2.
  - by rewrite Hpk, Hself2.
  - done.
  - done.
  - intros Hne. apply Forall_app. split; [apply Hrs | apply Hps]; done.
Qed.

End CycleFacts.

Section ScanFacts.
Context {W Pin : Type} `{!Platform W Pin} `{!SetOrder}.

Local Abbreviation Mach := (Machine W Pin).

Lemma scan_row_run n c inputs row pressed (st : Mach) :
  scan_row n c inputs row pressed st
  = if row <? 0 then (Raise ValueError, st)
    else if Z.testbit inputs row then (Ok pressed, st)
    else (Ok ({[ c + n * row ]} ∪ pressed), st).
Proof.
  unfold scan_row, mbind, M_bind, bind, lift_result, py_rshift.
  destruct (Z.ltb_spec row 0) as [Hneg|Hpos]; [done|].
  rewrite row_bit_low by done.
  by destruct (Z.testbit inputs row).
Qed.

(** The loop over the rows adds the key of every row whose bit is 0 and
    removes nothing. *)
Lemma scan_rows_run n c inputs (row_pins : list Z) :
  forall pressed (st st' : Mach) res,
    fold_each row_pins pressed (scan_row n c inputs) st = (Ok res, st') ->
    pressed ⊆ res
    /\ forall r, r ∈ row_pins -> Z.testbit inputs r = false ->
                 c + n * r ∈ res.
Proof.
  induction row_pins as [|row row_pins IH]; intros pressed st st' res Hrun.
  - cbn in Hrun. injection Hrun as -> _. split; [done|].
    intros r Hr. by apply elem_of_nil in Hr.
  - cbn [fold_each] in Hrun. apply bind_inv_ok in Hrun.
    destruct Hrun as (acc & st1 & Hrow & Hrest).
    destruct (IH _ _ _ _ Hrest) as [Hsub Hrows].
    rewrite scan_row_run in Hrow.
    destruct (row <? 0); [discriminate|].
    destruct (Z.testbit inputs row) eqn:Hbit;
      injection Hrow as <- <-.
    + split; [done|]. intros r Hr Hlow.
      apply elem_of_cons in Hr as [->|Hr]; [congruence|by apply Hrows].
    + split; [by etrans; [apply union_subseteq_r|]|]. intros r Hr Hlow.
      apply elem_of_cons in Hr as [->|Hr]; [|by apply Hrows].
      by apply Hsub, elem_of_union_l, elem_of_singleton.
Qed.

Lemma scan_column_body_grows n c pressed (st st' : Mach) res :
  scan_column_body n c pressed st = (Ok res, st') -> pressed ⊆ res.
Proof.
  unfold scan_column_body. intros Hrun.
  apply bind_inv_ok in Hrun as (mask & s1 & _ & Hrun).
  apply bind_inv_ok in Hrun as (? & s2 & _ & Hrun).
  apply bind_inv_ok in Hrun as (gate & s3 & _ & Hrun).
  destruct gate; [|by injection Hrun as ->].
  apply bind_inv_ok in Hrun as (inputs & s4 & _ & Hrun).
  destruct (int_truthy inputs); [|by injection Hrun as ->].
  apply bind_inv_ok in Hrun as (s & s5 & _ & Hrun).
  by apply scan_rows_run in Hrun as [Hsub _].
Qed.

Lemma scan_columns_grow n (column_pins : list Z) :
  forall pressed (st st' : Mach) res,
    fold_each column_pins pressed (scan_column_body n) st = (Ok res, st') ->
    pressed ⊆ res.
Proof.
  induction column_pins as [|c column_pins IH];
    intros pressed st st' res Hrun.
  - cbn in Hrun. by injection Hrun as ->.
  - cbn [fold_each] in Hrun.
    apply bind_inv_ok in Hrun as (acc & st1 & Hcol & Hrest).
    apply scan_column_body_grows in Hcol. apply IH in Hrest.
    set_solver.
Qed.

(** A bus failure on the write of the column port or on the read of the
    row port, at any column, makes the scan raise it; [self] is as it
    was. *)
Lemma column_port_error_raises (st st1 : Mach) (pre post : list Z)
    (c mask : Z) (acc : gset Z) (w2 : W) (e : exn) :
  columns (self st) = pre ++ c :: post ->
  fold_each pre ∅ (scan_column_body (len (columns (self st)))) st
  = (Ok acc, st1) ->
  py_lshift 1 c = Ok mask ->
  set_gpioa (0xFF - mask) (world st1) = (Raise e, w2) ->
  _scan_matrix st = (Raise e, {| self := self st1; world := w2 |}).
Proof.
  intros Hcols Hpre Hmask Hwrite.
  unfold _scan_matrix. erewrite bind_ok by reflexivity.
  erewrite bind_raise; [reflexivity|].
  rewrite Hcols at 1. rewrite fold_each_app.
  erewrite bind_ok by exact Hpre. cbn [fold_each].
  erewrite bind_raise; [reflexivity|].
  unfold scan_column_body.
  erewrite bind_ok by (unfold lift_result; by rewrite Hmask).
  erewrite bind_raise; [reflexivity|].
  unfold on_world, zoom. by rewrite Hwrite.
Qed.

Lemma row_port_error_raises (st st1 st3 : Mach) (pre post : list Z)
    (c mask : Z) (acc : gset Z) (w2 w4 : W) (e : exn) :
  columns (self st) = pre ++ c :: post ->
  fold_each pre ∅ (scan_column_body (len (columns (self st)))) st
  = (Ok acc, st1) ->
  py_lshift 1 c = Ok mask ->
  set_gpioa (0xFF - mask) (world st1) = (Ok tt, w2) ->
  irq_gate {| self := self st1; world := w2 |} = (Ok true, st3) ->
  get_gpiob (world st3) = (Raise e, w4) ->
  _scan_matrix st = (Raise e, {| self := self st3; world := w4 |}).
Proof.
  intros Hcols Hpre Hmask Hwrite Hgate Hread.
  unfold _scan_matrix. erewrite bind_ok by reflexivity.
  erewrite bind_raise; [reflexivity|].
  rewrite Hcols at 1. rewrite fold_each_app.
  erewrite bind_ok by exact Hpre. cbn [fold_each].
  erewrite bind_raise; [reflexivity|].
  unfold scan_column_body.
  erewrite bind_ok by (unfold lift_result; by rewrite Hmask).
  erewrite bind_ok by (unfold on_world, zoom; by rewrite Hwrite).
  erewrite bind_ok by exact Hgate. cbn iota.
  erewrite bind_raise; [reflexivity|].
  unfold on_world, zoom. by rewrite Hread.
Qed.

End ScanFacts.

(** ** The claims about the scanner *)

Section Claims.
Context {W Pin : Type} `{!Platform W Pin} `{!SetOrder}.

Local Abbreviation Mach := (Machine W Pin).

(** C1. In a cycle of [update_queue] whose scan returns [current], the
    events appended to the queue are a run [rel] of released events
    followed by a run [prs] of pressed events; the key numbers of [rel]
    are exactly the previous [keys_state] minus [current], those of
    [prs] exactly [current] minus the previous [keys_state], each key
    number once. *)
Theorem update_queue_diff (st st2 : Mach) (current : gset Z) :
  _scan_matrix (snd (on_world ticks st)) = (Ok current, st2) ->
  exists rel prs st',
    update_queue st = (Ok tt, st')
    /\ _outq (events (self st')) = _outq (events (self st))
    /\ _inq (events (self st')) = _inq (events (self st)) ++ rel ++ prs
    /\ Forall (fun e => pressed e = false) rel
    /\ Forall (fun e => pressed e = true) prs
    /\ map key_number rel ≡ₚ elements (keys_state (self st) ∖ current)
    /\ map key_number prs ≡ₚ elements (current ∖ keys_state (self st))
    /\ (forall k, k ∈ map key_number rel
                  <-> k ∈ keys_state (self st) /\ k ∉ current)
    /\ (forall k, k ∈ map key_number prs
                  <-> k ∈ current /\ k ∉ keys_state (self st)).
Proof.
  intros Hscan.
  destruct (update_queue_run st st2 current Hscan)
    as (rel & prs & w' & Hrun & Hrk & Hpk & Hrp & Hpp & _).
  eexists rel, prs, _. split; [exact Hrun|].
  cbn [self events _outq _inq set_keys_state with_appended set_events].
  assert (Hr : map key_number rel ≡ₚ elements (keys_state (self st) ∖ current))
    by (rewrite Hrk; apply set_iter_perm).
  assert (Hp : map key_number prs ≡ₚ elements (current ∖ keys_state (self st)))
    by (rewrite Hpk; apply set_iter_perm).
  split; [done|]. split; [done|]. split; [done|]. split; [done|].
  split; [done|]. split; [done|]. split; intros k.
  - rewrite Hr, elem_of_elements. set_solver.
  - rewrite Hp, elem_of_elements. set_solver.
Qed.

(** When the timestamp captured at the start of the cycle is not 0,
    every event of the cycle carries it. *)
Lemma update_queue_stamps_nonzero (st st2 : Mach) (current : gset Z) :
  _scan_matrix (snd (on_world ticks st)) = (Ok current, st2) ->
  fst (ticks_ms (world st)) <> 0 ->
  exists evs st',
    update_queue st = (Ok tt, st')
    /\ _inq (events (self st')) = _inq (events (self st)) ++ evs
    /\ Forall (fun e => timestamp e = fst (ticks_ms (world st))) evs.
Proof.
  intros Hscan Hne.
  destruct (update_queue_run st st2 current Hscan)
    as (rel & prs & w' & Hrun & _ & _ & _ & _ & Hstamp).
  eexists (rel ++ prs), _. split; [exact Hrun|]. split; [done|]. auto.
Qed.

(** When the scan of a cycle raises, whatever the exception,
    [update_queue] raises the same exception, and the scanner object is as
    it was before the call: the same [keys_state], the same queue. *)
Theorem scan_error_leaves_state (st st2 : Mach) (e : exn) :
  _scan_matrix (snd (on_world ticks st)) = (Raise e, st2) ->
  update_queue st = (Raise e, st2)
  /\ keys_state (self st2) = keys_state (self st)
  /\ events (self st2) = events (self st).
Proof.
  intros Hscan.
  assert (Hself2 : self st2 = self st).
  { pose proof (keeps_self_scan_matrix (snd (on_world ticks st))) as K.
    rewrite Hscan, self_after_ticks in K. exact K. }
  split; [|by rewrite Hself2].
  unfold update_queue.
  erewrite bind_ok by apply on_world_ticks_run.
  by erewrite bind_raise by exact Hscan.
Qed.

(** C6. For a row index below the number of rows and a column index
    below the number of columns, converting to a key number and back
    returns the pair. *)
Theorem key_number_round_trip (s : McpMatrixScanner Pin) (row column : Z) :
  0 <= row < len (rows s) ->
  0 <= column < len (columns s) ->
  key_number_to_row_column s (row_column_to_key_number s row column)
  = Ok (row, column).
Proof.
  intros Hrow Hcol.
  unfold key_number_to_row_column, row_column_to_key_number,
    py_floordiv, py_mod.
  destruct (Z.eqb_spec (len (columns s)) 0) as [Hz|Hnz]; [lia|].
  rewrite Z.div_add_l by done. rewrite Z.div_small by lia.
  rewrite Z.add_0_r.
  rewrite (Z.add_comm (row * len (columns s))), Z.mod_add by done.
  by rewrite Z.mod_small by lia.
Qed.

(** C9. [deinit] returns without raising and leaves no interrupt pin in
    the scanner, the pin it held being released; a second [deinit] then
    returns without raising and changes nothing, so that two calls in
    succession do what one call does. *)
Theorem deinit_twice (st : Mach) :
  exists st1,
    deinit st = (Ok tt, st1)
    /\ irq (self st1) = None
    /\ world st1 = match irq (self st) with
                   | Some pin => irq_deinit pin (world st)
                   | None => world st
                   end
    /\ deinit st1 = (Ok tt, st1)
    /\ (deinit;; deinit) st = deinit st.
Proof.
  unfold deinit at 1 4.
  unfold mbind, M_bind, bind, get_state, on_self, ret.
  destruct st as [s w]. cbn [self world].
  destruct (irq s) as [pin|] eqn:Hirq.
  - eexists. split; [reflexivity|]. cbn [self world set_irq irq].
    repeat split. unfold deinit, mbind, M_bind, bind, get_state, ret.
    cbn [self world set_irq irq]. rewrite Hirq. reflexivity.
  - exists {| self := s; world := w |}. cbn [self world].
    unfold deinit, mbind, M_bind, bind, get_state, ret. cbn [self].
    by rewrite Hirq.
Qed.

(** C10. [Event(key, pressed, t)] stores [t] when [t] is not 0, without
    reading the clock; [Event(key, pressed, 0)] stores what the clock
    reads at that moment, as [Event(key, pressed)] does. *)
Theorem Event_init_timestamp (key : Z) (p : bool) (w : W) :
  (forall t, t <> 0 ->
     Event_init key p (Some t) w
     = (Ok {| key_number := key; timestamp := t; pressed := p |}, w))
  /\ Event_init key p (Some 0) w
     = (Ok {| key_number := key; timestamp := fst (ticks_ms w);
              pressed := p |}, snd (ticks_ms w))
  /\ Event_init key p (Some 0) w = Event_init key p None w.
Proof.
  unfold Event_init, mbind, M_bind, bind.
  split; [|split].
  - intros t Hne. rewrite timestamp_or_ticks_run.
    unfold int_truthy. by destruct (Z.eqb_spec t 0).
  - rewrite timestamp_or_ticks_run. reflexivity.
  - reflexivity.
Qed.

Lemma no_event_of_key (K : Z) (p : bool) (evs : list Event) :
  K ∉ map key_number evs ->
  filter (fun e => key_number e = K /\ pressed e = p) evs = [].
Proof.
  induction evs as [|e evs IH]; intros Hnot; [done|].
  cbn [map] in Hnot. apply not_elem_of_cons in Hnot as [Hne Hnot].
  rewrite filter_cons_False by (intros [? _]; done). by apply IH.
Qed.

Lemma one_event_of_key (K : Z) (p : bool) (evs : list Event) :
  NoDup (map key_number evs) ->
  K ∈ map key_number evs ->
  Forall (fun e => pressed e = p) evs ->
  length (filter (fun e => key_number e = K /\ pressed e = p) evs)
  = 1%nat.
Proof.
  induction evs as [|e evs IH]; intros Hnd Hin Hall.
  - by apply elem_of_nil in Hin.
  - cbn [map] in Hnd, Hin. apply NoDup_cons in Hnd as [Hfresh Hnd].
    apply Forall_cons in Hall as [Hp Hall].
    destruct (decide (key_number e = K)) as [Heq|Hne].
    + rewrite filter_cons_True by done.
      rewrite no_event_of_key by (by rewrite <- Heq). done.
    + rewrite filter_cons_False by (intros [? _]; done).
      apply IH; [done| |done].
      apply elem_of_cons in Hin as [Heq|Hin]; [congruence|done].
Qed.

Lemma reset_run (st : Mach) :
  reset st
  = (Ok tt, {| self := set_keys_state ∅
                         (set_events EventQueue.__init__ (self st));
               world := world st |}).
Proof. reflexivity. Qed.

(** A cycle that starts with no key held and nothing queued. *)
Lemma fresh_cycle_one_press (st st2 : Mach) (current : gset Z) (K : Z) :
  keys_state (self st) = ∅ ->
  events (self st) = EventQueue.__init__ ->
  _scan_matrix (snd (on_world ticks st)) = (Ok current, st2) ->
  K ∈ current ->
  exists st',
    update_queue st = (Ok tt, st')
    /\ length
         (filter (fun e => key_number e = K /\ pressed e = true)
            (EventQueue.contents (events (self st'))))
       = 1%nat.
Proof.
  intros Hks Hq Hscan HK.
  destruct (update_queue_run st st2 current Hscan)
    as (rel & prs & w' & Hrun & Hrk & Hpk & Hrp & Hpp & _).
  rewrite Hks in Hrk, Hpk.
  eexists. split; [exact Hrun|].
  cbn [self events set_keys_state with_appended set_events _outq _inq
       EventQueue.contents]. rewrite Hq.
  cbn [_outq _inq EventQueue.__init__ rev app].
  assert (Hrel : rel = []).
  { apply (f_equal (@length Z)) in Hrk.
    rewrite (set_iter_perm _) in Hrk.
    rewrite empty_difference_L, elements_empty, length_map in Hrk.
    by destruct rel. }
  subst rel. cbn [app].
  assert (Hp : map key_number prs ≡ₚ elements current).
  { by rewrite Hpk, (set_iter_perm _), difference_empty_L. }
  apply one_event_of_key; [| |done].
  - rewrite Hp. apply NoDup_elements.
  - rewrite Hp. by apply elem_of_elements.
Qed.

(** C7. [reset] returns without raising and leaves [keys_state] empty
    and the queue empty. From that scanner, a cycle of [update_queue]
    whose scan finds key [K] down appends exactly one event that has key
    number [K] and is a pressed event: the queue then holds exactly one
    such event. *)
Theorem reset_then_one_press (st : Mach) :
  exists st1,
    reset st = (Ok tt, st1)
    /\ keys_state (self st1) = ∅
    /\ events (self st1) = EventQueue.__init__
    /\ fst (EventQueue.__len__ (events (self st1))) = Ok 0
    /\ forall (w : W) (current : gset Z) (st2 : Mach) (K : Z),
         _scan_matrix
           (snd (on_world ticks {| self := self st1; world := w |}))
         = (Ok current, st2) ->
         K ∈ current ->
         exists st',
           update_queue {| self := self st1; world := w |} = (Ok tt, st')
           /\ length
                (filter (fun e => key_number e = K /\ pressed e = true)
                   (EventQueue.contents (events (self st'))))
              = 1%nat.
Proof.
  eexists. split; [apply reset_run|].
  cbn [self]. split; [done|]. split; [done|]. split; [done|].
  intros w current st2 K Hscan HK.
  by apply (fresh_cycle_one_press _ st2 current K).
Qed.

(** C2, for a row port that does not read 0. Let the scan reach column
    [c], write the column port, find the interrupt gate open and read
    [inputs] from the row port. If [inputs] is not 0 and the scan
    returns, then for every row whose bit in [inputs] is 0 the key
    number [c + num_columns * row] is in the set the scan returns. *)
Theorem scan_reports_low_rows (st st1 st3 st' : Mach)
    (pre post : list Z) (c mask inputs r : Z) (acc current : gset Z)
    (w2 w4 : W) :
  columns (self st) = pre ++ c :: post ->
  fold_each pre ∅ (scan_column_body (len (columns (self st)))) st
  = (Ok acc, st1) ->
  py_lshift 1 c = Ok mask ->
  set_gpioa (0xFF - mask) (world st1) = (Ok tt, w2) ->
  irq_gate {| self := self st1; world := w2 |} = (Ok true, st3) ->
  get_gpiob (world st3) = (Ok inputs, w4) ->
  inputs <> 0 ->
  _scan_matrix st = (Ok current, st') ->
  r ∈ rows (self st) ->
  Z.testbit inputs r = false ->
  c + len (columns (self st)) * r ∈ current.
Proof.
  intros Hcols Hpre Hmask Hwrite Hgate Hread Hnz Hscan Hr Hbit.
  unfold _scan_matrix in Hscan.
  apply bind_inv_ok in Hscan as (s0 & s0' & [= <- <-] & Hscan).
  apply bind_inv_ok in Hscan as (pressed & s5 & Hloop & Hscan).
  apply bind_inv_ok in Hscan as (? & s6 & _ & [= <- _]).
  rewrite Hcols, fold_each_app in Hloop at 1.
  erewrite bind_ok in Hloop by exact Hpre.
  cbn [fold_each] in Hloop.
  apply bind_inv_ok in Hloop as (acc' & s2 & Hbody & Hpost).
  apply scan_columns_grow in Hpost. apply Hpost. clear Hpost.
  assert (Hself1 : self st1 = self st).
  { pose proof (keeps_self_fold_each pre ∅
      (scan_column_body (len (columns (self st))))
      (fun x b => keeps_self_scan_column_body _ x b) st) as K.
    by rewrite Hpre in K. }
  assert (Hself3 : self st3 = self st).
  { pose proof (keeps_self_irq_gate {| self := self st1; world := w2 |})
      as K. rewrite Hgate in K. cbn in K. congruence. }
  unfold scan_column_body in Hbody.
  erewrite bind_ok in Hbody by (unfold lift_result; by rewrite Hmask).
  erewrite bind_ok in Hbody
    by (unfold on_world, zoom; by rewrite Hwrite).
  erewrite bind_ok in Hbody by exact Hgate. cbn iota in Hbody.
  erewrite bind_ok in Hbody; cycle 1.
  { unfold on_world, zoom. rewrite Hread. reflexivity. }
  replace (int_truthy inputs) with true in Hbody
    by (unfold int_truthy; by destruct (Z.eqb_spec inputs 0)).
  cbn iota in Hbody. erewrite bind_ok in Hbody by reflexivity.
  cbn [self] in Hbody. rewrite Hself3 in Hbody.
  apply scan_rows_run in Hbody as [_ Hrows]. by apply Hrows.
Qed.

End Claims.

(** ** The claims on the bench *)

Module BenchRuns.
Import Bench.

Lemma update_queue_diff_witness :
  _scan_matrix (snd (on_world ticks cycle))
  = (Ok {[ 0 ]}, snd (_scan_matrix (snd (on_world ticks cycle))))
  /\ exists rel prs st',
       update_queue cycle = (Ok tt, st')
       /\ _outq (events (self st')) = _outq (events (self cycle))
       /\ _inq (events (self st')) = _inq (events (self cycle)) ++ rel ++ prs
       /\ Forall (fun e => pressed e = false) rel
       /\ Forall (fun e => pressed e = true) prs
       /\ map key_number rel ≡ₚ elements (keys_state (self cycle) ∖ {[ 0 ]})
       /\ map key_number prs ≡ₚ elements ({[ 0 ]} ∖ keys_state (self cycle))
       /\ (forall k, k ∈ map key_number rel
                     <-> k ∈ keys_state (self cycle) /\ k ∉ ({[ 0 ]} : gset Z))
       /\ (forall k, k ∈ map key_number prs
                     <-> k ∈ ({[ 0 ]} : gset Z) /\ k ∉ keys_state (self cycle)).
Proof.
  assert (Hscan : _scan_matrix (snd (on_world ticks cycle))
                  = (Ok {[ 0 ]},
                     snd (_scan_matrix (snd (on_world ticks cycle)))))
    by (vm_compute; reflexivity).
  split; [exact Hscan|].
  exact (update_queue_diff cycle _ {[ 0 ]} Hscan).
Defined.

(** The events of that cycle, as the code computes them. *)
Example cycle_events :
  _inq (events (self (snd (update_queue cycle))))
  = [ {| key_number := 4; timestamp := 5; pressed := false |};
      {| key_number := 0; timestamp := 5; pressed := true |} ].
Proof. vm_compute. reflexivity. Qed.

Lemma scan_reports_low_rows_witness :
  let w2 := snd (set_gpioa (0xFF - 1) (world cycle)) in
  let w4 := snd (get_gpiob w2) in
  columns (self cycle) = [] ++ 0 :: [1; 2]
  /\ set_gpioa (0xFF - 1) (world cycle) = (Ok tt, w2)
  /\ irq_gate {| self := self cycle; world := w2 |}
     = (Ok true, {| self := self cycle; world := w2 |})
  /\ get_gpiob w2 = (Ok 0xFE, w4)
  /\ fst (_scan_matrix cycle) = Ok {[ 0 ]}
  /\ 0 + len (columns (self cycle)) * 0 ∈ ({[ 0 ]} : gset Z).
Proof.
  intros w2 w4.
  assert (Hcols : columns (self cycle) = [] ++ 0 :: [1; 2]) by reflexivity.
  assert (Hwrite : set_gpioa (0xFF - 1) (world cycle) = (Ok tt, w2))
    by reflexivity.
  assert (Hgate : irq_gate {| self := self cycle; world := w2 |}
                  = (Ok true, {| self := self cycle; world := w2 |}))
    by reflexivity.
  assert (Hread : get_gpiob w2 = (Ok 0xFE, w4)) by reflexivity.
  assert (Hscan : _scan_matrix cycle
                  = (Ok {[ 0 ]}, snd (_scan_matrix cycle)))
    by (vm_compute; reflexivity).
  split; [exact Hcols|]. split; [exact Hwrite|]. split; [exact Hgate|].
  split; [exact Hread|]. split; [by rewrite Hscan|].
  apply (scan_reports_low_rows cycle cycle
           {| self := self cycle; world := w2 |} (snd (_scan_matrix cycle))
           [] [1; 2] 0 1 0xFE 0 ∅ {[ 0 ]} w2 w4).
  - exact Hcols.
  - reflexivity.
  - reflexivity.
  - exact Hwrite.
  - exact Hgate.
  - exact Hread.
  - lia.
  - exact Hscan.
  - vm_compute. left.
  - reflexivity.
Defined.

(** A row port that reads 0 has every row bit at 0, and the scan reports
    no key for that column: the statement of C2 without the restriction to
    a read that is not 0 fails on the bench [zero_read]. *)
Lemma scan_ignores_zero_read :
  ~ (forall (st st1 st3 st' : Machine World unit)
            (pre post : list Z) (c mask inputs r : Z)
            (acc current : gset Z) (w2 w4 : World),
       columns (self st) = pre ++ c :: post ->
       fold_each pre ∅ (scan_column_body (len (columns (self st)))) st
       = (Ok acc, st1) ->
       py_lshift 1 c = Ok mask ->
       set_gpioa (0xFF - mask) (world st1) = (Ok tt, w2) ->
       irq_gate {| self := self st1; world := w2 |} = (Ok true, st3) ->
       get_gpiob (world st3) = (Ok inputs, w4) ->
       0 <= inputs < 256 ->
       _scan_matrix st = (Ok current, st') ->
       r ∈ rows (self st) ->
       Z.testbit inputs r = false ->
       c + len (columns (self st)) * r ∈ current).
Proof.
  intros Hclaim.
  pose (w2 := snd (set_gpioa (0xFF - 1) (world zero_read))).
  pose (w4 := snd (get_gpiob w2)).
  apply (not_elem_of_empty (C := gset Z) (0 + len (columns (self zero_read)) * 0)).
  apply (Hclaim zero_read zero_read
           {| self := self zero_read; world := w2 |}
           (snd (_scan_matrix zero_read))
           [] [] 0 1 0 0 ∅ ∅ w2 w4).
  - reflexivity.
  - reflexivity.
  - reflexivity.
  - reflexivity.
  - reflexivity.
  - reflexivity.
  - lia.
  - vm_compute. reflexivity.
  - vm_compute. left.
  - reflexivity.
Qed.

(** C4. On the bench [midnight] the clock reads 0 when the cycle starts;
    the cycle finds key 0 down and appends its pressed event stamped 7,
    the next reading of the clock, and not 0. *)
Theorem zero_timestamp_restamped :
  fst (ticks_ms (world midnight)) = 0
  /\ fst (update_queue midnight) = Ok tt
  /\ _inq (events (self (snd (update_queue midnight))))
     = [ {| key_number := 0; timestamp := 7; pressed := true |} ].
Proof. repeat split; vm_compute; reflexivity. Qed.

Lemma scan_error_leaves_state_witness :
  let st2 := snd (_scan_matrix (snd (on_world ticks bus_fault))) in
  _scan_matrix (snd (on_world ticks bus_fault)) = (Raise OSError, st2)
  /\ update_queue bus_fault = (Raise OSError, st2)
  /\ keys_state (self st2) = keys_state (self bus_fault)
  /\ events (self st2) = events (self bus_fault).
Proof.
  intros st2.
  assert (Hscan : _scan_matrix (snd (on_world ticks bus_fault))
                  = (Raise OSError, st2)) by (vm_compute; reflexivity).
  split; [exact Hscan|].
  exact (scan_error_leaves_state bus_fault st2 OSError Hscan).
Defined.

Lemma key_number_round_trip_witness :
  0 <= 1 < len (rows (self cycle))
  /\ 0 <= 2 < len (columns (self cycle))
  /\ key_number_to_row_column (self cycle)
       (row_column_to_key_number (self cycle) 1 2) = Ok (1, 2).
Proof.
  assert (Hrow : 0 <= 1 < len (rows (self cycle))) by (vm_compute; by split).
  assert (Hcol : 0 <= 2 < len (columns (self cycle)))
    by (vm_compute; by split).
  split; [exact Hrow|]. split; [exact Hcol|].
  exact (key_number_round_trip (self cycle) 1 2 Hrow Hcol).
Defined.

Lemma Event_init_timestamp_witness :
  5 <> 0
  /\ Event_init 3 true (Some 5) (world cycle)
     = (Ok {| key_number := 3; timestamp := 5; pressed := true |},
        world cycle).
Proof.
  assert (Hne : 5 <> 0) by lia.
  split; [exact Hne|].
  exact (proj1 (Event_init_timestamp 3 true (world cycle)) 5 Hne).
Defined.

Lemma reset_then_one_press_witness :
  let st1 := snd (reset cycle) in
  let fresh := {| self := self st1; world := world cycle |} in
  _scan_matrix (snd (on_world ticks fresh))
  = (Ok {[ 0 ]}, snd (_scan_matrix (snd (on_world ticks fresh))))
  /\ 0 ∈ ({[ 0 ]} : gset Z)
  /\ exists st',
       update_queue fresh = (Ok tt, st')
       /\ length
            (filter (fun e => key_number e = 0 /\ pressed e = true)
               (EventQueue.contents (events (self st'))))
          = 1%nat.
Proof.
  intros st1 fresh.
  assert (Hscan : _scan_matrix (snd (on_world ticks fresh))
                  = (Ok {[ 0 ]}, snd (_scan_matrix (snd (on_world ticks fresh)))))
    by (vm_compute; reflexivity).
  assert (Hin : 0 ∈ ({[ 0 ]} : gset Z)) by (by apply elem_of_singleton).
  split; [exact Hscan|]. split; [exact Hin|].
  destruct (reset_then_one_press cycle)
    as (st1' & Hreset & _ & _ & _ & Hcycle).
  assert (Hst1 : st1' = st1) by (unfold st1; by rewrite Hreset).
  subst st1'.
  exact (Hcycle (world cycle) {[ 0 ]} _ 0 Hscan Hin).
Defined.

(** Releasing the pin of [with_pin], twice. *)
Example deinit_twice_run :
  irq (self (snd (deinit with_pin))) = None
  /\ pin_released (world (snd (deinit with_pin))) = true
  /\ (deinit;; deinit) with_pin = deinit with_pin.
Proof. repeat split. Qed.

End BenchRuns.

(** * Further properties *)

(** ** Equality and hash of events *)

Lemma Event_eq_spec (e other : Event) :
  Event_eq e other = true
  <-> key_number e = key_number other /\ pressed e = pressed other.
Proof.
  unfold Event_eq. rewrite andb_true_iff, Z.eqb_eq, Bool.eqb_true_iff.
  reflexivity.
Qed.

(** X1. [__eq__] is an equivalence relation on events, and two events
    that differ only in their timestamps are equal. *)
Theorem Event_eq_equivalence :
  (forall e, Event_eq e e = true)
  /\ (forall e1 e2, Event_eq e1 e2 = Event_eq e2 e1)
  /\ (forall e1 e2 e3,
        Event_eq e1 e2 = true -> Event_eq e2 e3 = true ->
        Event_eq e1 e3 = true)
  /\ (forall k p t1 t2,
        Event_eq {| key_number := k; timestamp := t1; pressed := p |}
                 {| key_number := k; timestamp := t2; pressed := p |} = true).
Proof.
  split; [|split; [|split]].
  - intros e. by apply Event_eq_spec.
  - intros e1 e2. unfold Event_eq.
    rewrite (Z.eqb_sym (key_number e1)).
    by destruct (pressed e1), (pressed e2).
  - intros e1 e2 e3 H12 H23.
    apply Event_eq_spec in H12 as [Hk12 Hp12].
    apply Event_eq_spec in H23 as [Hk23 Hp23].
    apply Event_eq_spec. split; congruence.
  - intros k p t1 t2. by apply Event_eq_spec.
Qed.

(** X2. [__hash__] never raises, and events that [__eq__] holds equal
    have the same hash. *)
Theorem Event_hash_respects_eq (e other : Event) :
  Event_eq e other = true ->
  is_ok (Event_hash e) = true /\ Event_hash e = Event_hash other.
Proof.
  intros Heq. apply Event_eq_spec in Heq as [Hk Hp].
  unfold Event_hash. rewrite Hk, Hp. split; [|done].
  unfold py_lshift. by destruct (pressed other).
Qed.

(** X3. The hash is [key_number * 2] for a released event and
    [key_number * 4] for a pressed one: the released event of key [2 * k]
    and the pressed event of key [k] are not equal and have the same
    hash. *)
Theorem Event_hash_value (k t : Z) :
  Event_hash {| key_number := k; timestamp := t; pressed := false |}
  = Ok (k * 2)
  /\ Event_hash {| key_number := k; timestamp := t; pressed := true |}
     = Ok (k * 4)
  /\ Event_eq {| key_number := 2 * k; timestamp := t; pressed := false |}
              {| key_number := k; timestamp := t; pressed := true |} = false
  /\ Event_hash {| key_number := 2 * k; timestamp := t; pressed := false |}
     = Event_hash {| key_number := k; timestamp := t; pressed := true |}.
Proof.
  unfold Event_hash, py_lshift, Event_eq. cbn [key_number pressed Z.b2z].
  change (1 + 0 <? 0) with false. change (1 + 1 <? 0) with false.
  cbn [Z.add Pos.add]. rewrite !Z.shiftl_mul_pow2 by lia.
  change (2 ^ 1) with 2. change (2 ^ 2) with 4.
  split; [done|]. split; [done|]. split.
  - by rewrite andb_false_r.
  - f_equal. lia.
Qed.

(** ** The queue against a first-in first-out list *)

Lemma list_truthy_len {A} (l : list A) : (0 <? len l) = list_truthy l.
Proof. by destruct l. Qed.

Lemma len_run (q : EventQueue) :
  EventQueue.__len__ q = (Ok (len (EventQueue.contents q)), q).
Proof.
  pose proof (QueueFacts.length_contents q) as Hlen.
  rewrite QueueFacts.length_run in Hlen |- *. cbn in Hlen.
  by injection Hlen as ->.
Qed.

Lemma bool_run (q : EventQueue) :
  EventQueue.__bool__ q = (Ok (list_truthy (EventQueue.contents q)), q).
Proof.
  unfold EventQueue.__bool__. erewrite bind_ok by apply len_run.
  unfold ret. by rewrite list_truthy_len.
Qed.

(** One call on the queue answers as the same call on the list of its
    contents, and leaves the contents the list is left with. *)
Lemma run_call_fifo (c : queue_call) (q : EventQueue) :
  exists q',
    run_call c q = (Ok (fst (fifo_call c (EventQueue.contents q))), q')
    /\ EventQueue.contents q' = snd (fifo_call c (EventQueue.contents q)).
Proof.
  destruct c as [e| | | |]; cbn [run_call fifo_call fst snd].
  - eexists. split; [reflexivity|].
    unfold EventQueue.contents. cbn. by rewrite app_assoc.
  - destruct (QueueFacts.get_run q) as (q' & Hget & Hq').
    exists q'. split; [|done]. by erewrite bind_ok by exact Hget.
  - eexists. split; [reflexivity|]. reflexivity.
  - exists q. split; [|done]. by erewrite bind_ok by apply len_run.
  - exists q. split; [|done]. by erewrite bind_ok by apply bool_run.
Qed.

(** X4. Any sequence of [append], [get], [clear], [len] and [bool] calls,
    in any interleaving and from any state of the queue, returns without
    raising what the same calls return on a first-in first-out list that
    starts with the events queued. *)
Theorem queue_refines_fifo (cs : list queue_call) (q : EventQueue) :
  fst (run_calls cs q) = Ok (fifo_calls cs (EventQueue.contents q)).
Proof.
  revert q. induction cs as [|c cs IH]; intros q; [done|].
  destruct (run_call_fifo c q) as (q' & Hrun & Hq').
  cbn [run_calls fifo_calls].
  erewrite bind_ok by exact Hrun.
  specialize (IH q'). rewrite Hq' in IH.
  unfold mbind, M_bind, bind.
  destruct (run_calls cs q') as [[rs|e] q'']; cbn in IH; [|discriminate].
  injection IH as ->. reflexivity.
Qed.

(** X5. [get_into] on a queue that holds events returns [True], makes
    the supplied event a copy of the oldest queued event and removes that
    event from the queue; on an empty queue it returns [False] and leaves
    the supplied event untouched. It never raises. *)
Theorem get_into_run (q : EventQueue) (target : Event) :
  exists q',
    EventQueue.contents q' = tail (EventQueue.contents q)
    /\ get_into (q, target)
       = match head (EventQueue.contents q) with
         | Some e => (Ok true, (q', e))
         | None => (Ok false, (q', target))
         end.
Proof.
  destruct (QueueFacts.get_run q) as (q' & Hget & Hq').
  exists q'. split; [done|].
  unfold get_into. erewrite bind_ok; cycle 1.
  { unfold zoom. cbn [fst snd]. rewrite Hget. reflexivity. }
  destruct (head (EventQueue.contents q)) as [[k t p]|]; reflexivity.
Qed.

(** ** What a scan can return *)

Section ScanShape.
Context {W Pin : Type} `{!Platform W Pin} `{!SetOrder}.

Local Abbreviation Mach := (Machine W Pin).

Lemma on_world_self {A} (m : M W A) (st st' : Mach) (r : result A) :
  on_world m st = (r, st') -> self st' = self st.
Proof.
  intros Hrun. pose proof (keeps_self_on_world m st) as K.
  by rewrite Hrun in K.
Qed.

Lemma irq_gate_self (st st' : Mach) (r : result bool) :
  irq_gate st = (r, st') -> self st' = self st.
Proof.
  intros Hrun. pose proof (keeps_self_irq_gate st) as K.
  by rewrite Hrun in K.
Qed.

Lemma py_lshift_ok (a n r : Z) : py_lshift a n = Ok r -> 0 <= n.
Proof. unfold py_lshift. destruct (Z.ltb_spec n 0); [done|lia]. Qed.

(** The loop over the rows adds only keys of rows of the list, at
    non-negative positions where the read has a 0. *)
Lemma scan_rows_sound n c inputs (row_pins : list Z) :
  forall pressed (st st' : Mach) res,
    fold_each row_pins pressed (scan_row n c inputs) st = (Ok res, st') ->
    forall k, k ∈ res ->
      k ∈ pressed
      \/ exists r, r ∈ row_pins /\ 0 <= r /\ Z.testbit inputs r = false
                   /\ k = c + n * r.
Proof.
  induction row_pins as [|row row_pins IH]; intros pressed st st' res Hrun k Hk.
  - cbn in Hrun. injection Hrun as -> _. by left.
  - cbn [fold_each] in Hrun. apply bind_inv_ok in Hrun.
    destruct Hrun as (acc & st1 & Hrow & Hrest).
    destruct (IH _ _ _ _ Hrest k Hk) as [Hacc|(r & Hr & Hpos & Hbit & ->)].
    + rewrite scan_row_run in Hrow.
      destruct (Z.ltb_spec row 0) as [|Hpos]; [discriminate|].
      destruct (Z.testbit inputs row) eqn:Hbit; injection Hrow as <- <-.
      * by left.
      * apply elem_of_union in Hacc as [Hnew|Hold]; [|by left].
        apply elem_of_singleton in Hnew as ->. right. exists row.
        split; [apply elem_of_cons; by left|done].
    + right. exists r. split; [apply elem_of_cons; by right|done].
Qed.

Lemma scan_column_body_sound n c pressed (st st' : Mach) res :
  scan_column_body n c pressed st = (Ok res, st') ->
  forall k, k ∈ res ->
    k ∈ pressed
    \/ exists r, r ∈ rows (self st) /\ 0 <= r /\ 0 <= c /\ k = c + n * r.
Proof.
  unfold scan_column_body. intros Hrun k Hk.
  apply bind_inv_ok in Hrun as (mask & s1 & Hmask & Hrun).
  assert (Hc : 0 <= c).
  { unfold lift_result in Hmask. injection Hmask as Hmask _.
    by apply py_lshift_ok in Hmask. }
  assert (Hs1 : s1 = st) by (unfold lift_result in Hmask; congruence).
  subst s1.
  apply bind_inv_ok in Hrun as (? & s2 & Hwrite & Hrun).
  apply on_world_self in Hwrite.
  apply bind_inv_ok in Hrun as (gate & s3 & Hgate & Hrun).
  apply irq_gate_self in Hgate.
  destruct gate; [|injection Hrun as <- _; by left].
  apply bind_inv_ok in Hrun as (inputs & s4 & Hread & Hrun).
  apply on_world_self in Hread.
  destruct (int_truthy inputs); [|injection Hrun as <- _; by left].
  apply bind_inv_ok in Hrun as (s & s5 & [= <- <-] & Hrun).
  destruct (scan_rows_sound _ _ _ _ _ _ _ _ Hrun k Hk)
    as [Hold|(r & Hr & Hpos & _ & ->)]; [by left|].
  right. exists r. split; [|done]. congruence.
Qed.

Lemma scan_columns_sound n (column_pins : list Z) :
  forall pressed (st st' : Mach) res,
    fold_each column_pins pressed (scan_column_body n) st = (Ok res, st') ->
    forall k, k ∈ res ->
      k ∈ pressed
      \/ exists c r, c ∈ column_pins /\ r ∈ rows (self st)
                     /\ 0 <= c /\ 0 <= r /\ k = c + n * r.
Proof.
  induction column_pins as [|c column_pins IH];
    intros pressed st st' res Hrun k Hk.
  - cbn in Hrun. injection Hrun as -> _. by left.
  - cbn [fold_each] in Hrun.
    apply bind_inv_ok in Hrun as (acc & st1 & Hcol & Hrest).
    assert (Hself : self st1 = self st).
    { pose proof (keeps_self_scan_column_body n c pressed st) as K.
      by rewrite Hcol in K. }
    destruct (IH _ _ _ _ Hrest k Hk)
      as [Hacc|(c' & r & Hc' & Hr & Hposc & Hposr & ->)].
    + destruct (scan_column_body_sound _ _ _ _ _ _ Hcol k Hacc)
        as [Hold|(r & Hr & Hposr & Hposc & ->)]; [by left|].
      right. exists c, r. split; [apply elem_of_cons; by left|done].
    + right. exists c', r. split; [apply elem_of_cons; by right|].
      split; [congruence|done].
Qed.

(** X6. Every key number a scan returns is
    [row_column_to_key_number row column] for a pin [column] of
    [self.columns] and a pin [row] of [self.rows], both non-negative. *)
Theorem scan_returns_matrix_keys (st st' : Mach) (current : gset Z) (k : Z) :
  _scan_matrix st = (Ok current, st') ->
  k ∈ current ->
  exists column row,
    column ∈ columns (self st) /\ row ∈ rows (self st)
    /\ 0 <= column /\ 0 <= row
    /\ k = row_column_to_key_number (self st) row column.
Proof.
  intros Hscan Hk. unfold _scan_matrix in Hscan.
  apply bind_inv_ok in Hscan as (s0 & s0' & [= <- <-] & Hscan).
  apply bind_inv_ok in Hscan as (pressed & s5 & Hloop & Hscan).
  apply bind_inv_ok in Hscan as (? & s6 & _ & [= <- _]).
  destruct (scan_columns_sound _ _ _ _ _ _ Hloop k Hk)
    as [Hnone|(c & r & Hc & Hr & Hposc & Hposr & ->)].
  - by apply not_elem_of_empty in Hnone.
  - exists c, r. unfold row_column_to_key_number.
    repeat (split; [done|]). lia.
Qed.

(** X9. A scan that returns has written [0xFF] to the column port last,
    and has assigned no field of the scanner. *)
Theorem scan_restores_column_port (st st' : Mach) (current : gset Z) :
  _scan_matrix st = (Ok current, st') ->
  self st' = self st
  /\ exists w, set_gpioa 0xFF w = (Ok tt, world st').
Proof.
  intros Hscan. split.
  - pose proof (keeps_self_scan_matrix st) as K. by rewrite Hscan in K.
  - unfold _scan_matrix in Hscan.
    apply bind_inv_ok in Hscan as (s0 & s0' & [= <- <-] & Hscan).
    apply bind_inv_ok in Hscan as (pressed & s5 & Hloop & Hscan).
    apply bind_inv_ok in Hscan as ([] & s6 & Hwrite & [= _ <-]).
    exists (world s5). unfold on_world, zoom in Hwrite.
    destruct (set_gpioa 255 (world s5)) as [r w'].
    by injection Hwrite as -> <-.
Qed.

End ScanShape.

(** ** The interrupt gate *)

Section GateFacts.
Context {W Pin : Type} `{!Platform W Pin} `{!SetOrder}.

Local Abbreviation Mach := (Machine W Pin).

(** A condition [quiet] on the world under which the column port accepts
    every write and the interrupt line of [pin] reads deasserted. *)
Context (quiet : W -> Prop) (pin : Pin).
Context (write_quiet : forall v w, quiet w ->
           exists w', set_gpioa v w = (Ok tt, w') /\ quiet w').
Context (line_quiet : forall w, quiet w ->
           exists w', irq_value pin w = (Ok true, w') /\ quiet w').

Lemma quiet_column_body n c pressed (s : McpMatrixScanner Pin) (w : W) :
  irq s = Some pin -> 0 <= c -> quiet w ->
  exists w', scan_column_body n c pressed {| self := s; world := w |}
             = (Ok pressed, {| self := s; world := w' |})
             /\ quiet w'.
Proof.
  intros Hirq Hc Hq.
  destruct (write_quiet (0xFF - Z.shiftl 1 c) w Hq) as (w1 & Hwrite & Hq1).
  destruct (line_quiet w1 Hq1) as (w2 & Hline & Hq2).
  exists w2. split; [|done].
  unfold scan_column_body.
  erewrite bind_ok; cycle 1.
  { unfold lift_result, py_lshift.
    destruct (Z.ltb_spec c 0); [lia|reflexivity]. }
  erewrite bind_ok; cycle 1.
  { unfold on_world, zoom. cbn [world self]. rewrite Hwrite. reflexivity. }
  erewrite bind_ok; cycle 1.
  { unfold irq_gate. erewrite bind_ok by reflexivity.
    cbn [self]. rewrite Hirq.
    erewrite bind_ok; [reflexivity|].
    unfold on_world, zoom. cbn [world self]. rewrite Hline. reflexivity. }
  reflexivity.
Qed.

Lemma quiet_columns n (column_pins : list Z) pressed
    (s : McpMatrixScanner Pin) :
  irq s = Some pin -> Forall (fun c => 0 <= c) column_pins ->
  forall w, quiet w ->
    exists w', fold_each column_pins pressed (scan_column_body n)
                 {| self := s; world := w |}
               = (Ok pressed, {| self := s; world := w' |})
               /\ quiet w'.
Proof.
  intros Hirq Hpos. induction Hpos as [|c column_pins Hc Hpos IH]; intros w Hq.
  - by exists w.
  - destruct (quiet_column_body n c pressed s w Hirq Hc Hq)
      as (w1 & Hcol & Hq1).
    destruct (IH w1 Hq1) as (w2 & Hrest & Hq2).
    exists w2. split; [|done]. cbn [fold_each].
    by erewrite bind_ok by exact Hcol.
Qed.

(** X7. A scanner that holds an interrupt pin whose line reads
    deasserted throughout the scan returns the empty set, whatever the
    row port would read: the row port is not read at all. *)
Theorem quiet_scan_is_empty (s : McpMatrixScanner Pin) (w : W) :
  irq s = Some pin ->
  Forall (fun c => 0 <= c) (columns s) ->
  quiet w ->
  exists w', _scan_matrix {| self := s; world := w |}
             = (Ok ∅, {| self := s; world := w' |})
             /\ quiet w'.
Proof.
  intros Hirq Hpos Hq.
  destruct (quiet_columns (len (columns s)) (columns s) ∅ s Hirq Hpos w Hq)
    as (w1 & Hloop & Hq1).
  destruct (write_quiet 0xFF w1 Hq1) as (w2 & Hwrite & Hq2).
  exists w2. split; [|done].
  unfold _scan_matrix. erewrite bind_ok by reflexivity. cbn [self].
  erewrite bind_ok by exact Hloop.
  erewrite bind_ok; [reflexivity|].
  unfold on_world, zoom. cbn [world self]. by rewrite Hwrite.
Qed.

(** X8. With such a quiet interrupt line, a cycle of [update_queue]
    reports every key of [keys_state] as released, once each, reports no
    key as pressed, and leaves [keys_state] empty. *)
Theorem quiet_cycle_releases_all (s : McpMatrixScanner Pin) (w : W) :
  irq s = Some pin ->
  Forall (fun c => 0 <= c) (columns s) ->
  quiet (snd (ticks_ms w)) ->
  exists rel st',
    update_queue {| self := s; world := w |} = (Ok tt, st')
    /\ keys_state (self st') = ∅
    /\ _inq (events (self st')) = _inq (events s) ++ rel
    /\ Forall (fun e => pressed e = false) rel
    /\ map key_number rel ≡ₚ elements (keys_state s).
Proof.
  intros Hirq Hpos Hq.
  assert (Hticks : snd (on_world ticks {| self := s; world := w |})
                   = {| self := s; world := snd (ticks_ms w) |}).
  { unfold on_world, zoom, ticks. cbn [world self].
    by destruct (ticks_ms w). }
  assert (exists w1, _scan_matrix {| self := s; world := snd (ticks_ms w) |}
                     = (Ok ∅, {| self := s; world := w1 |}))
    as (w1 & Hscan).
  { destruct (quiet_columns (len (columns s)) (columns s) ∅ s Hirq Hpos
                _ Hq) as (w1 & Hloop & Hq1).
    destruct (write_quiet 0xFF w1 Hq1) as (w2 & Hwrite & _).
    exists w2. unfold _scan_matrix. erewrite bind_ok by reflexivity.
    cbn [self]. erewrite bind_ok by exact Hloop.
    erewrite bind_ok; [reflexivity|].
    unfold on_world, zoom. cbn [world self]. by rewrite Hwrite. }
  rewrite <- Hticks in Hscan.
  destruct (update_queue_run _ _ _ Hscan)
    as (rel & prs & w' & Hrun & Hrk & Hpk & Hrp & _ & _).
  cbn [self] in Hrk, Hpk.
  rewrite empty_difference_L in Hpk.
  rewrite difference_empty_L in Hrk.
  assert (Hprs : prs = []).
  { apply (f_equal (@length Z)) in Hpk.
    rewrite (set_iter_perm _), elements_empty, length_map in Hpk.
    by destruct prs. }
  subst prs. rewrite app_nil_r in Hrun.
  eexists rel, _. split; [exact Hrun|]. cbn [self keys_state set_keys_state
    events with_appended set_events _inq].
  split; [done|]. split; [done|]. split; [done|].
  rewrite Hrk. apply set_iter_perm.
Qed.

End GateFacts.

(** ** Aborted scans *)

Section AbortFacts.
Context {W Pin : Type} `{!Platform W Pin} `{!SetOrder}.

Local Abbreviation Mach := (Machine W Pin).

Lemma fold_columns_self n (column_pins : list Z) pressed (st st' : Mach) r :
  fold_each column_pins pressed (scan_column_body n) st = (r, st') ->
  self st' = self st.
Proof.
  intros Hrun.
  pose proof (keeps_self_fold_each column_pins pressed (scan_column_body n)
                (fun x b => keeps_self_scan_column_body n x b) st) as K.
  by rewrite Hrun in K.
Qed.

(** X10. When the read of the row port fails at some column, the scan
    raises that error at once: the world is the one the failed read left,
    so the column port keeps the selection of that column instead of the
    idle [0xFF], and no field of the scanner is assigned. *)
Theorem scan_aborts_on_row_read_error (st st1 st3 : Mach)
    (pre post : list Z) (c mask : Z) (acc : gset Z) (w2 w4 : W) (e : exn) :
  columns (self st) = pre ++ c :: post ->
  fold_each pre ∅ (scan_column_body (len (columns (self st)))) st
  = (Ok acc, st1) ->
  py_lshift 1 c = Ok mask ->
  set_gpioa (0xFF - mask) (world st1) = (Ok tt, w2) ->
  irq_gate {| self := self st1; world := w2 |} = (Ok true, st3) ->
  get_gpiob (world st3) = (Raise e, w4) ->
  _scan_matrix st = (Raise e, {| self := self st; world := w4 |}).
Proof.
  intros Hcols Hpre Hmask Hwrite Hgate Hread.
  rewrite (row_port_error_raises st st1 st3 pre post c mask acc w2 w4 e)
    by done.
  apply fold_columns_self in Hpre. apply irq_gate_self in Hgate.
  cbn [self] in Hgate. congruence.
Qed.

(** X11. A negative pin number in [self.columns] makes the scan raise
    ValueError when it reaches that column, before any access to the
    ports for it. *)
Theorem scan_rejects_negative_column (st st1 : Mach)
    (pre post : list Z) (c : Z) (acc : gset Z) :
  columns (self st) = pre ++ c :: post ->
  fold_each pre ∅ (scan_column_body (len (columns (self st)))) st
  = (Ok acc, st1) ->
  c < 0 ->
  _scan_matrix st = (Raise ValueError, st1).
Proof.
  intros Hcols Hpre Hneg.
  unfold _scan_matrix. erewrite bind_ok by reflexivity.
  erewrite bind_raise; [reflexivity|].
  rewrite Hcols at 1. rewrite fold_each_app.
  erewrite bind_ok by exact Hpre. cbn [fold_each].
  erewrite bind_raise; [reflexivity|].
  unfold scan_column_body.
  erewrite bind_raise; [reflexivity|].
  unfold lift_result, py_lshift. by destruct (Z.ltb_spec c 0); [|lia].
Qed.

End AbortFacts.

(** ** Cycles *)

Section CycleShape.
Context {W Pin : Type} `{!Platform W Pin} `{!SetOrder}.

Local Abbreviation Mach := (Machine W Pin).




(** X13. After a cycle whose scan returns [current], [keys_state] is
    [current], the pins, the key count and the interrupt pin are those
    before, and the number of events appended is the number of keys in
    exactly one of [current] and the previous [keys_state]. *)
Theorem update_queue_post_state (st st2 : Mach) (current : gset Z) :
  _scan_matrix (snd (on_world ticks st)) = (Ok current, st2) ->
  exists evs st',
    update_queue st = (Ok tt, st')
    /\ keys_state (self st') = current
    /\ columns (self st') = columns (self st)
    /\ rows (self st') = rows (self st)
    /\ key_count (self st') = key_count (self st)
    /\ irq (self st') = irq (self st)
    /\ EventQueue.contents (events (self st'))
       = EventQueue.contents (events (self st)) ++ evs
    /\ length evs
       = (size (keys_state (self st) ∖ current)
          + size (current ∖ keys_state (self st)))%nat.
Proof.
  intros Hscan.
  destruct (update_queue_run st st2 current Hscan)
    as (rel & prs & w' & Hrun & Hrk & Hpk & _).
  eexists (rel ++ prs), _. split; [exact Hrun|].
  cbn [self keys_state columns rows key_count _key_count irq events
       set_keys_state with_appended set_events EventQueue.contents
       _outq _inq].
  repeat (split; [reflexivity|]).
  split; [unfold EventQueue.contents; cbn [_outq _inq]; by rewrite app_assoc|].
  rewrite length_app. f_equal.
  - rewrite <- (length_map key_number), Hrk, (set_iter_perm _). reflexivity.
  - rewrite <- (length_map key_number), Hpk, (set_iter_perm _). reflexivity.
Qed.

End CycleShape.

(** ** The balance of pressed and released events *)

Section BalanceFacts.
Context {W Pin : Type} `{!Platform W Pin} `{!SetOrder}.

Local Abbreviation Mach := (Machine W Pin).

Lemma count_events_app (K : Z) (p : bool) (l1 l2 : list Event) :
  count_events K p (l1 ++ l2)
  = (count_events K p l1 + count_events K p l2)%nat.
Proof. unfold count_events. by rewrite filter_app, length_app. Qed.

Lemma count_events_other (K : Z) (p : bool) (evs : list Event) :
  Forall (fun e => pressed e = negb p) evs -> count_events K p evs = 0%nat.
Proof.
  unfold count_events. induction 1 as [|e evs He _ IH]; [done|].
  rewrite filter_cons_False; [done|].
  intros [_ Hp]. rewrite Hp in He. by destruct p.
Qed.

Lemma count_events_keys (K : Z) (p : bool) (evs : list Event) (X : gset Z) :
  Forall (fun e => pressed e = p) evs ->
  map key_number evs ≡ₚ elements X ->
  count_events K p evs = if decide (K ∈ X) then 1%nat else 0%nat.
Proof.
  intros Hp Hperm. unfold count_events. destruct (decide (K ∈ X)) as [HK|HK].
  - apply one_event_of_key; [| |done].
    + rewrite Hperm. apply NoDup_elements.
    + rewrite Hperm. by apply elem_of_elements.
  - rewrite no_event_of_key; [done|].
    rewrite Hperm. by rewrite elem_of_elements.
Qed.

Lemma update_queue_raises_run (st st2 : Mach) (e : exn) :
  _scan_matrix (snd (on_world ticks st)) = (Raise e, st2) ->
  update_queue st = (Raise e, st2) /\ self st2 = self st.
Proof.
  intros Hscan. split.
  - unfold update_queue.
    erewrite bind_ok by apply on_world_ticks_run.
    by erewrite bind_raise by exact Hscan.
  - pose proof (keeps_self_scan_matrix (snd (on_world ticks st))) as K.
    rewrite Hscan, self_after_ticks in K. exact K.
Qed.

Lemma balanced_fresh (s : McpMatrixScanner Pin) :
  keys_state s = ∅ -> EventQueue.contents (events s) = [] -> balanced s.
Proof.
  intros Hks Hq K. rewrite Hks, Hq. unfold count_events.
  rewrite filter_nil. by destruct (decide (K ∈ (∅ : gset Z))).
Qed.

(** One call of [update_queue], returning or raising, keeps the
    balance. *)
Lemma balanced_update_queue (st : Mach) :
  balanced (self st) -> balanced (self (snd (update_queue st))).
Proof.
  intros Hbal.
  destruct (_scan_matrix (snd (on_world ticks st))) as [[current|e] st2]
    eqn:Hscan.
  - destruct (update_queue_run st st2 current Hscan)
      as (rel & prs & w' & Hrun & Hrk & Hpk & Hrp & Hpp & _).
    rewrite Hrun. cbn [snd self]. intros K. specialize (Hbal K).
    cbn [keys_state events set_keys_state with_appended set_events].
    unfold EventQueue.contents in *. cbn [_outq _inq].
    repeat rewrite count_events_app in Hbal.
    repeat rewrite count_events_app.
    rewrite (count_events_other K true rel) by done.
    rewrite (count_events_other K false prs) by done.
    rewrite (count_events_keys K false rel (keys_state (self st) ∖ current))
      by (done || (rewrite Hrk; apply set_iter_perm)).
    rewrite (count_events_keys K true prs (current ∖ keys_state (self st)))
      by (done || (rewrite Hpk; apply set_iter_perm)).
    repeat case_decide;
      repeat match goal with
             | H : context [_ ∈ _ ∖ _] |- _ => rewrite elem_of_difference in H
             end;
      first [lia | exfalso; tauto].
  - destruct (update_queue_raises_run st st2 e Hscan) as [-> Hself].
    cbn [snd]. by rewrite Hself.
Qed.

(** X14. From a scanner in balance, and so from a new or a reset one,
    any number of [update_queue] calls, some of which may raise, leaves
    for every key as many pressed events queued as released ones, plus
    one exactly when the key is in [keys_state]: no transition is lost
    and none is reported twice. *)
Theorem cycles_keep_balance (n : nat) (st : Mach) :
  balanced (self st) -> balanced (self (cycles n st)).
Proof.
  intros Hbal. induction n as [|n IH]; [done|].
  unfold cycles. cbn [Nat.iter]. by apply balanced_update_queue.
Qed.

End BalanceFacts.

(** ** Key numbers, rows and columns *)

Section KeyNumbers.
Context {Pin : Type}.

Lemma decode_in_range (s : McpMatrixScanner Pin) (k : Z) :
  0 <= k < len (columns s) * len (rows s) ->
  exists row column,
    key_number_to_row_column s k = Ok (row, column)
    /\ 0 <= row < len (rows s) /\ 0 <= column < len (columns s).
Proof.
  intros Hk. assert (Hc : 0 < len (columns s)) by (unfold len in *; nia).
  exists (k / len (columns s)), (k mod len (columns s)).
  unfold key_number_to_row_column, py_floordiv, py_mod.
  destruct (Z.eqb_spec (len (columns s)) 0) as [|_]; [lia|].
  split; [done|]. split.
  - split; [by apply Z.div_pos; lia|].
    apply Z.div_lt_upper_bound; lia.
  - by apply Z.mod_pos_bound.
Qed.

(** X15. With no column, [key_number_to_row_column] raises
    ZeroDivisionError. With at least one column it returns, for any key
    number, a pair with a column below the number of columns, and
    [row_column_to_key_number] of that pair is the key number again. *)
Theorem key_number_decode_encode (s : McpMatrixScanner Pin) (k : Z) :
  (columns s = [] ->
   key_number_to_row_column s k = Raise ZeroDivisionError)
  /\ (columns s <> [] ->
      exists row column,
        key_number_to_row_column s k = Ok (row, column)
        /\ 0 <= column < len (columns s)
        /\ row_column_to_key_number s row column = k).
Proof.
  split.
  - intros Hnone. unfold key_number_to_row_column. by rewrite Hnone.
  - intros Hsome.
    assert (Hc : 0 < len (columns s)).
    { unfold len. destruct (columns s); [done|]. cbn [length]. lia. }
    exists (k / len (columns s)), (k mod len (columns s)).
    unfold key_number_to_row_column, row_column_to_key_number,
      py_floordiv, py_mod.
    destruct (Z.eqb_spec (len (columns s)) 0) as [|_]; [lia|].
    split; [done|]. split; [by apply Z.mod_pos_bound|].
    rewrite Z.mul_comm. symmetry. apply Z.div_mod. lia.
Qed.

End KeyNumbers.

(** ** Construction *)

Section ConstructionFacts.
Context {W Pin PinId : Type} `{!Platform W Pin} `{!SetOrder}
  `{!Setup W Pin PinId}.

Local Abbreviation Mach := (Machine W Pin).

Lemma on_world_inv_ok {A} (m : M W A) (st st' : Mach) (a : A) :
  on_world m st = (Ok a, st') ->
  self st' = self st /\ m (world st) = (Ok a, world st').
Proof.
  unfold on_world, zoom. destruct (m (world st)) as [r w'].
  intros [= -> <-]. by split.
Qed.

(** What [__init__] leaves when it returns. *)
Lemma init_fields (row_pins column_pins : list Z) (irq_pin : option PinId)
    (st0 st : Mach) :
  McpMatrixScanner_init row_pins column_pins irq_pin st0 = (Ok tt, st) ->
  exists pin,
    self st = {| _key_count := len column_pins * len row_pins;
                 columns := column_pins; rows := row_pins; keys_state := ∅;
                 events := EventQueue.__init__; irq := pin |}
    /\ (pin = None <-> irq_pin = None).
Proof.
  unfold McpMatrixScanner_init. intros Hrun.
  apply bind_inv_ok in Hrun as ([] & s1 & [= <-] & Hrun).
  apply bind_inv_ok in Hrun as ([] & s2 & [Hs2 _]%on_world_inv_ok & Hrun).
  apply bind_inv_ok in Hrun as ([] & s3 & [Hs3 _]%on_world_inv_ok & Hrun).
  apply bind_inv_ok in Hrun as ([] & s4 & [Hs4 _]%on_world_inv_ok & Hrun).
  apply bind_inv_ok in Hrun as ([] & s5 & [= <-] & Hrun).
  cbn [self] in Hs2. rewrite Hs2 in Hs3. rewrite Hs3 in Hs4.
  destruct irq_pin as [id|].
  - apply bind_inv_ok in Hrun as (pin & s6 & [Hs6 _]%on_world_inv_ok & Hrun).
    apply bind_inv_ok in Hrun as ([] & s7 & [= <-] & Hrun).
    apply bind_inv_ok in Hrun as ([] & s8 & [Hs8 _]%on_world_inv_ok & Hrun).
    apply bind_inv_ok in Hrun as ([] & s9 & [Hs9 _]%on_world_inv_ok & Hrun).
    apply bind_inv_ok in Hrun as ([] & s10 & [Hs10 _]%on_world_inv_ok & Hrun).
    apply bind_inv_ok in Hrun as ([] & s11 & [Hs11 _]%on_world_inv_ok & Hrun).
    apply bind_inv_ok in Hrun as ([] & s12 & [Hs12 _]%on_world_inv_ok & Hrun).
    apply on_world_inv_ok in Hrun as [Hs13 _].
    exists (Some pin). split; [|done].
    rewrite Hs13, Hs12, Hs11, Hs10, Hs9, Hs8. cbn [self].
    rewrite Hs6. cbn [self]. by rewrite Hs4.
  - injection Hrun as <-. exists None. split; [|done].
    cbn [self]. by rewrite Hs4.
Qed.

(** X16. When [__init__] returns, the scanner has the pins it was given,
    no key held, an empty queue, an interrupt pin exactly when one was
    supplied, and [key_count] is the number of columns times the number of
    rows; every key number from 0 up to [key_count] then converts to a row
    below the number of rows and a column below the number of columns. *)
Theorem init_establishes (row_pins column_pins : list Z)
    (irq_pin : option PinId) (st0 st : Mach) :
  McpMatrixScanner_init row_pins column_pins irq_pin st0 = (Ok tt, st) ->
  rows (self st) = row_pins
  /\ columns (self st) = column_pins
  /\ keys_state (self st) = ∅
  /\ events (self st) = EventQueue.__init__
  /\ (irq (self st) = None <-> irq_pin = None)
  /\ key_count (self st) = len column_pins * len row_pins
  /\ forall k, 0 <= k < key_count (self st) ->
       exists row column,
         key_number_to_row_column (self st) k = Ok (row, column)
         /\ 0 <= row < len row_pins /\ 0 <= column < len column_pins.
Proof.
  intros Hinit. destruct (init_fields _ _ _ _ _ Hinit) as (pin & Hself & Hpin).
  rewrite Hself. cbn [rows columns keys_state events irq key_count _key_count].
  repeat (split; [done|]).
  intros k Hk.
  by apply (decode_in_range
              {| _key_count := len column_pins * len row_pins;
                 columns := column_pins; rows := row_pins; keys_state := ∅;
                 events := EventQueue.__init__; irq := pin |}).
Qed.

(** X17. The first cycle of [update_queue] on a scanner that [__init__]
    returned queues pressed events only, one for each key the scan finds
    down, and nothing else. *)
Theorem first_cycle_after_init (row_pins column_pins : list Z)
    (irq_pin : option PinId) (st0 st st2 : Mach) (w : W)
    (current : gset Z) :
  McpMatrixScanner_init row_pins column_pins irq_pin st0 = (Ok tt, st) ->
  _scan_matrix (snd (on_world ticks {| self := self st; world := w |}))
  = (Ok current, st2) ->
  exists prs st',
    update_queue {| self := self st; world := w |} = (Ok tt, st')
    /\ EventQueue.contents (events (self st')) = prs
    /\ Forall (fun e => pressed e = true) prs
    /\ map key_number prs ≡ₚ elements current.
Proof.
  intros Hinit Hscan.
  destruct (init_fields _ _ _ _ _ Hinit) as (pin & Hself & _).
  destruct (update_queue_run _ st2 current Hscan)
    as (rel & prs & w' & Hrun & Hrk & Hpk & Hrp & Hpp & _).
  cbn [self] in Hrk, Hpk, Hrun. rewrite Hself in Hrk, Hpk.
  cbn [keys_state] in Hrk, Hpk.
  rewrite empty_difference_L in Hrk. rewrite difference_empty_L in Hpk.
  assert (Hrel : rel = []).
  { apply (f_equal (@length Z)) in Hrk.
    rewrite (set_iter_perm _), elements_empty, length_map in Hrk.
    by destruct rel. }
  subst rel. eexists prs, _. split; [exact Hrun|].
  cbn [self events set_keys_state with_appended set_events].
  rewrite Hself. cbn [events]. split; [done|]. split; [done|].
  rewrite Hpk. apply set_iter_perm.
Qed.

End ConstructionFacts.

(** ** The further properties on the bench *)

Module BenchExtras.
Import Bench BenchSetup.

Lemma Event_eq_equivalence_witness :
  let e1 := {| key_number := 3; timestamp := 5; pressed := true |} in
  let e2 := {| key_number := 3; timestamp := 9; pressed := true |} in
  let e3 := {| key_number := 3; timestamp := 0; pressed := true |} in
  Event_eq e1 e2 = true /\ Event_eq e2 e3 = true /\ Event_eq e1 e3 = true.
Proof.
  intros e1 e2 e3.
  assert (H12 : Event_eq e1 e2 = true) by reflexivity.
  assert (H23 : Event_eq e2 e3 = true) by reflexivity.
  split; [exact H12|]. split; [exact H23|].
  exact (proj1 (proj2 (proj2 Event_eq_equivalence)) e1 e2 e3 H12 H23).
Defined.

Lemma Event_hash_respects_eq_witness :
  let e1 := {| key_number := 3; timestamp := 5; pressed := true |} in
  let e2 := {| key_number := 3; timestamp := 9; pressed := true |} in
  Event_eq e1 e2 = true
  /\ is_ok (Event_hash e1) = true /\ Event_hash e1 = Event_hash e2.
Proof.
  intros e1 e2.
  assert (H12 : Event_eq e1 e2 = true) by reflexivity.
  split; [exact H12|]. exact (Event_hash_respects_eq e1 e2 H12).
Defined.

Lemma scan_returns_matrix_keys_witness :
  _scan_matrix cycle = (Ok {[ 0 ]}, snd (_scan_matrix cycle))
  /\ 0 ∈ ({[ 0 ]} : gset Z)
  /\ exists column row,
       column ∈ columns (self cycle) /\ row ∈ rows (self cycle)
       /\ 0 <= column /\ 0 <= row
       /\ 0 = row_column_to_key_number (self cycle) row column.
Proof.
  assert (Hscan : _scan_matrix cycle
                  = (Ok {[ 0 ]}, snd (_scan_matrix cycle)))
    by (vm_compute; reflexivity).
  assert (Hin : 0 ∈ ({[ 0 ]} : gset Z)) by (by apply elem_of_singleton).
  split; [exact Hscan|]. split; [exact Hin|].
  exact (scan_returns_matrix_keys cycle _ {[ 0 ]} 0 Hscan Hin).
Defined.

Lemma bench_write_idle (v : Z) (w : World) :
  line_idle w -> exists w', set_gpioa v w = (Ok tt, w') /\ line_idle w'.
Proof. intros Hw. eexists. split; [reflexivity|exact Hw]. Defined.

Lemma bench_line_idle (w : World) :
  line_idle w -> exists w', irq_value tt w = (Ok true, w') /\ line_idle w'.
Proof.
  intros Hw. exists w. split; [|exact Hw].
  unfold line_idle in Hw. cbn. unfold bench_irq_value. by rewrite Hw.
Defined.

Lemma quiet_scan_is_empty_witness :
  irq (self held_idle) = Some tt
  /\ Forall (fun c => 0 <= c) (columns (self held_idle))
  /\ line_idle (world held_idle)
  /\ exists w', _scan_matrix held_idle
                = (Ok ∅, {| self := self held_idle; world := w' |})
                /\ line_idle w'.
Proof.
  assert (Hirq : irq (self held_idle) = Some tt) by reflexivity.
  assert (Hpos : Forall (fun c => 0 <= c) (columns (self held_idle)))
    by (repeat constructor; lia).
  assert (Hidle : line_idle (world held_idle)) by reflexivity.
  split; [exact Hirq|]. split; [exact Hpos|]. split; [exact Hidle|].
  exact (quiet_scan_is_empty line_idle tt bench_write_idle bench_line_idle
           (self held_idle) (world held_idle) Hirq Hpos Hidle).
Defined.

Lemma quiet_cycle_releases_all_witness :
  irq (self held_idle) = Some tt
  /\ Forall (fun c => 0 <= c) (columns (self held_idle))
  /\ line_idle (snd (ticks_ms (world held_idle)))
  /\ exists rel st',
       update_queue held_idle = (Ok tt, st')
       /\ keys_state (self st') = ∅
       /\ _inq (events (self st')) = _inq (events (self held_idle)) ++ rel
       /\ Forall (fun e => pressed e = false) rel
       /\ map key_number rel ≡ₚ elements (keys_state (self held_idle)).
Proof.
  assert (Hirq : irq (self held_idle) = Some tt) by reflexivity.
  assert (Hpos : Forall (fun c => 0 <= c) (columns (self held_idle)))
    by (repeat constructor; lia).
  assert (Hidle : line_idle (snd (ticks_ms (world held_idle))))
    by reflexivity.
  split; [exact Hirq|]. split; [exact Hpos|]. split; [exact Hidle|].
  exact (quiet_cycle_releases_all line_idle tt bench_write_idle
           bench_line_idle (self held_idle) (world held_idle)
           Hirq Hpos Hidle).
Defined.

(** The cycle of [held_idle], as the code computes it: key 4 is released
    although it may still be down, and key 0 is not seen. *)
Example held_idle_cycle :
  _inq (events (self (snd (update_queue held_idle))))
  = [ {| key_number := 4; timestamp := 5; pressed := false |} ].
Proof. vm_compute. reflexivity. Qed.

Lemma scan_restores_column_port_witness :
  _scan_matrix cycle = (Ok {[ 0 ]}, snd (_scan_matrix cycle))
  /\ self (snd (_scan_matrix cycle)) = self cycle
  /\ exists w, set_gpioa 0xFF w = (Ok tt, world (snd (_scan_matrix cycle))).
Proof.
  assert (Hscan : _scan_matrix cycle
                  = (Ok {[ 0 ]}, snd (_scan_matrix cycle)))
    by (vm_compute; reflexivity).
  split; [exact Hscan|].
  exact (scan_restores_column_port cycle _ {[ 0 ]} Hscan).
Defined.

Lemma scan_aborts_on_row_read_error_witness :
  let w2 := snd (set_gpioa (0xFF - 1) (world bus_fault)) in
  let w4 := snd (get_gpiob w2) in
  columns (self bus_fault) = [] ++ 0 :: [1; 2]
  /\ set_gpioa (0xFF - 1) (world bus_fault) = (Ok tt, w2)
  /\ get_gpiob w2 = (Raise OSError, w4)
  /\ gpioa w4 = 0xFE
  /\ _scan_matrix bus_fault
     = (Raise OSError, {| self := self bus_fault; world := w4 |}).
Proof.
  intros w2 w4.
  assert (Hcols : columns (self bus_fault) = [] ++ 0 :: [1; 2])
    by reflexivity.
  assert (Hwrite : set_gpioa (0xFF - 1) (world bus_fault) = (Ok tt, w2))
    by reflexivity.
  assert (Hread : get_gpiob w2 = (Raise OSError, w4)) by reflexivity.
  split; [exact Hcols|]. split; [exact Hwrite|]. split; [exact Hread|].
  split; [reflexivity|].
  exact (scan_aborts_on_row_read_error bus_fault bus_fault
           {| self := self bus_fault; world := w2 |}
           [] [1; 2] 0 1 ∅ w2 w4 OSError
           Hcols eq_refl eq_refl Hwrite eq_refl Hread).
Defined.

Lemma scan_rejects_negative_column_witness :
  columns (self bad_column) = [] ++ -1 :: []
  /\ -1 < 0
  /\ _scan_matrix bad_column = (Raise ValueError, bad_column).
Proof.
  assert (Hcols : columns (self bad_column) = [] ++ -1 :: [])
    by reflexivity.
  assert (Hneg : -1 < 0) by lia.
  split; [exact Hcols|]. split; [exact Hneg|].
  exact (scan_rejects_negative_column bad_column bad_column [] [] (-1) ∅
           Hcols eq_refl Hneg).
Defined.


Lemma update_queue_post_state_witness :
  _scan_matrix (snd (on_world ticks cycle))
  = (Ok {[ 0 ]}, snd (_scan_matrix (snd (on_world ticks cycle))))
  /\ exists evs st',
       update_queue cycle = (Ok tt, st')
       /\ keys_state (self st') = {[ 0 ]}
       /\ columns (self st') = columns (self cycle)
       /\ rows (self st') = rows (self cycle)
       /\ key_count (self st') = key_count (self cycle)
       /\ irq (self st') = irq (self cycle)
       /\ EventQueue.contents (events (self st'))
          = EventQueue.contents (events (self cycle)) ++ evs
       /\ length evs
          = (size (keys_state (self cycle) ∖ {[ 0%Z ]})
             + size ({[ 0%Z ]} ∖ keys_state (self cycle)))%nat.
Proof.
  assert (Hscan : _scan_matrix (snd (on_world ticks cycle))
                  = (Ok {[ 0 ]},
                     snd (_scan_matrix (snd (on_world ticks cycle)))))
    by (vm_compute; reflexivity).
  split; [exact Hscan|].
  exact (update_queue_post_state cycle _ {[ 0 ]} Hscan).
Defined.

Lemma cycles_keep_balance_witness :
  balanced (self midnight) /\ balanced (self (cycles 2 midnight)).
Proof.
  assert (Hbal : balanced (self midnight))
    by (apply balanced_fresh; reflexivity).
  split; [exact Hbal|].
  exact (cycles_keep_balance 2 midnight Hbal).
Defined.

Lemma key_number_decode_encode_witness :
  columns (self cycle) <> []
  /\ exists row column,
       key_number_to_row_column (self cycle) 4 = Ok (row, column)
       /\ 0 <= column < len (columns (self cycle))
       /\ row_column_to_key_number (self cycle) row column = 4.
Proof.
  assert (Hsome : columns (self cycle) <> []) by discriminate.
  split; [exact Hsome|].
  exact (proj2 (key_number_decode_encode (self cycle) 4) Hsome).
Defined.

Lemma init_establishes_witness :
  let st := snd (McpMatrixScanner_init [0; 1] [0; 1; 2] (None : option Z) blank) in
  McpMatrixScanner_init [0; 1] [0; 1; 2] None blank = (Ok tt, st)
  /\ rows (self st) = [0; 1]
  /\ columns (self st) = [0; 1; 2]
  /\ keys_state (self st) = ∅
  /\ events (self st) = EventQueue.__init__
  /\ (irq (self st) = None <-> (None : option Z) = None)
  /\ key_count (self st) = len [0; 1; 2] * len [0; 1]
  /\ forall k, 0 <= k < key_count (self st) ->
       exists row column,
         key_number_to_row_column (self st) k = Ok (row, column)
         /\ 0 <= row < len [0; 1] /\ 0 <= column < len [0; 1; 2].
Proof.
  intros st.
  assert (Hinit : McpMatrixScanner_init [0; 1] [0; 1; 2] None blank
                  = (Ok tt, st)) by reflexivity.
  split; [exact Hinit|].
  exact (init_establishes [0; 1] [0; 1; 2] None blank st Hinit).
Defined.

Lemma first_cycle_after_init_witness :
  let st := snd (McpMatrixScanner_init [0; 1] [0; 1; 2] (None : option Z) blank) in
  let fresh := {| self := self st; world := world blank |} in
  McpMatrixScanner_init [0; 1] [0; 1; 2] None blank = (Ok tt, st)
  /\ _scan_matrix (snd (on_world ticks fresh))
     = (Ok {[ 4 ]}, snd (_scan_matrix (snd (on_world ticks fresh))))
  /\ exists prs st',
       update_queue fresh = (Ok tt, st')
       /\ EventQueue.contents (events (self st')) = prs
       /\ Forall (fun e => pressed e = true) prs
       /\ map key_number prs ≡ₚ elements ({[ 4 ]} : gset Z).
Proof.
  intros st fresh.
  assert (Hinit : McpMatrixScanner_init [0; 1] [0; 1; 2] None blank
                  = (Ok tt, st)) by reflexivity.
  assert (Hscan : _scan_matrix (snd (on_world ticks fresh))
                  = (Ok {[ 4 ]},
                     snd (_scan_matrix (snd (on_world ticks fresh)))))
    by (vm_compute; reflexivity).
  split; [exact Hinit|]. split; [exact Hscan|].
  exact (first_cycle_after_init [0; 1] [0; 1; 2] None blank st _
           (world blank) {[ 4 ]} Hinit Hscan).
Defined.

End BenchExtras.

(** ** Errors of the ports during a cycle *)

Section PortFaults.
Context {W Pin : Type} `{!Platform W Pin} `{!SetOrder}.

Local Abbreviation Mach := (Machine W Pin).

(** The write that sets the column port back to [0xFF] is the last
    statement of the scan before its [return]: when it raises, the scan
    raises. *)
Lemma restore_port_error_raises (st st1 : Mach) (pressed : gset Z)
    (w2 : W) (e : exn) :
  fold_each (columns (self st)) ∅
    (scan_column_body (len (columns (self st)))) st
  = (Ok pressed, st1) ->
  set_gpioa 0xFF (world st1) = (Raise e, w2) ->
  _scan_matrix st = (Raise e, {| self := self st1; world := w2 |}).
Proof.
  intros Hloop Hwrite.
  unfold _scan_matrix. erewrite bind_ok by reflexivity.
  erewrite bind_ok by exact Hloop.
  erewrite bind_raise; [reflexivity|].
  unfold on_world, zoom. by rewrite Hwrite.
Qed.

(** Every port access of the scan that raises makes the scan raise that
    error, in the state of that moment. *)
Lemma port_fault_raises (st st' : Mach) (e : exn) :
  port_fault st e st' -> _scan_matrix st = (Raise e, st').
Proof.
  intros [pre post c mask acc st1 w2 Hcols Hpre Hmask Hwrite
         |pre post c mask acc st1 st3 w2 w4 Hcols Hpre Hmask Hwrite Hgate Hread
         |pressed st1 w2 Hloop Hwrite].
  - by apply (column_port_error_raises st st1 pre post c mask acc).
  - by apply (row_port_error_raises st st1 st3 pre post c mask acc w2).
  - by apply (restore_port_error_raises st st1 pressed).
Qed.

(** C5. When a write of the column port or a read of the row port raises
    during the scan of a cycle, at any column or in the final write of
    [0xFF], [update_queue] raises that error to its caller, in the state
    of the failed access; [keys_state] is what it was before the call and
    so is the queue: no event of the cycle is appended. *)
Theorem port_error_leaves_state (st st2 : Mach) (e : exn) :
  port_fault (snd (on_world ticks st)) e st2 ->
  update_queue st = (Raise e, st2)
  /\ keys_state (self st2) = keys_state (self st)
  /\ events (self st2) = events (self st).
Proof.
  intros Hfault. apply port_fault_raises in Hfault.
  destruct (update_queue_raises_run st st2 e Hfault) as [Hrun Hself].
  split; [exact Hrun|]. by rewrite Hself.
Qed.

End PortFaults.

Module BenchFaults.
Import Bench BenchSetup.

Lemma port_error_leaves_state_witness :
  let st0 := snd (on_world ticks bus_fault) in
  let w2 := snd (set_gpioa (0xFF - 1) (world st0)) in
  let w4 := snd (get_gpiob w2) in
  let st2 := {| self := self bus_fault; world := w4 |} in
  port_fault st0 OSError st2
  /\ update_queue bus_fault = (Raise OSError, st2)
  /\ keys_state (self st2) = keys_state (self bus_fault)
  /\ events (self st2) = events (self bus_fault).
Proof.
  intros st0 w2 w4 st2.
  assert (Hfault : port_fault st0 OSError st2).
  { exact (fault_row_read st0 OSError [] [1; 2] 0 1 ∅ st0
             {| self := self st0; world := w2 |} w2 w4
             eq_refl eq_refl eq_refl eq_refl eq_refl eq_refl). }
  split; [exact Hfault|].
  exact (port_error_leaves_state bus_fault st2 OSError Hfault).
Defined.

(** The same cycle on the bench whose column port refuses the idle
    value: the scan reads all its columns, finds key 0 down, and the
    final write of [0xFF] raises. *)
Example restore_write_fault_run :
  let st0 := snd (on_world (ticks (H := idle_write_fails)) cycle) in
  let st1 := snd (fold_each (columns (self st0)) ∅
                    (scan_column_body (Platform0 := idle_write_fails)
                       (len (columns (self st0)))) st0) in
  port_fault (Platform0 := idle_write_fails) st0 OSError st1
  /\ update_queue (Platform0 := idle_write_fails) cycle
     = (Raise OSError, st1)
  /\ keys_state (self st1) = {[ 4 ]}
  /\ events (self st1) = EventQueue.__init__.
Proof.
  intros st0 st1.
  assert (Hfault : port_fault (Platform0 := idle_write_fails)
                     st0 OSError st1).
  { assert (Hloop : fold_each (columns (self st0)) ∅
                      (scan_column_body (Platform0 := idle_write_fails)
                         (len (columns (self st0)))) st0
                    = (Ok ({[ 0 ]} : gset Z), st1))
      by (vm_compute; reflexivity).
    exact (fault_restore_write (Platform0 := idle_write_fails)
             st0 OSError {[ 0 ]} st1 (world st1) Hloop eq_refl). }
  split; [exact Hfault|].
  split; [vm_compute; reflexivity|]. split; vm_compute; reflexivity.
Qed.

End BenchFaults.
